(** * Adaptive stepper speed control: a shallow embedding of [stepper_ir.ino]

    The sketch regulates a stepper's speed level from an IR-selected level
    and an ultrasonic distance sample.  Integers of the sketch ([int],
    [long]) are modelled in [Z]: on a reachable state the levels are in 0..9
    (see [reachable_levels_range]), the safe distance is at most 55 and the
    product formed by [map] at most 477 (see [map_product_range]), far inside
    the 16-bit [int] range, so signed arithmetic never wraps.
    The [unsigned long] clock arithmetic wraps modulo 2^32 and is written out.
    [float] is IEEE binary32, modelled by exact rationals rounded after every
    operation; a [float] passed where a [long] is expected is truncated. *)

From Stdlib Require Import ZArith QArith Qround Qabs Bool List String Ascii Lia.
From Stdlib Require Import DecimalString.
Import ListNotations.
Local Open Scope Z_scope.

(** ** Tunables *)

Definition BASE_SAFE_CM : Z := 10.
Definition CM_PER_LEVEL : Z := 5.
Definition MIN_CM : Z := 2.
Definition HYSTERESIS_CM : Z := 3.

Definition ECHO_TIMEOUT_US : Z := 25000.
Definition PING_INTERVAL_MS : Z := 60.
Definition LCD_REFRESH_MS : Z := 100.

Definition LED_ON_CM : Z := 20.
Definition LED_OFF_CM : Z := 25.

(** ** Arduino core helpers used by the sketch *)

(** [constrain(amt, low, high)] of Arduino.h:
    [((amt)<(low)?(low):((amt)>(high)?(high):(amt)))]. *)
Definition constrain (amt low high : Z) : Z :=
  if amt <? low then low else if amt >? high then high else amt.

(** [map] of the Arduino core (WMath.cpp), on [long]:
    [(x - in_min) * (out_max - out_min) / (in_max - in_min) + out_min].
    The division is C's integer division, which truncates toward zero. *)
Definition map (x in_min in_max out_min out_max : Z) : Z :=
  Z.quot ((x - in_min) * (out_max - out_min)) (in_max - in_min) + out_min.

(** Conversion to [uint8_t]. *)
Definition uint8 (x : Z) : Z := x mod 2 ^ 8.

(** [unsigned long] subtraction, modulo 2^32. *)
Definition ulong_sub (a b : Z) : Z := (a - b) mod 2 ^ 32.

(** ** binary32 arithmetic

    A finite [float] is a rational; every operation computes the exact
    rational result and rounds it to the nearest binary32 value, ties to
    even (24-bit significand, exponents from -126, gradual underflow).
    Overflow to infinity is not modelled: the sketch's values stay below 2^7. *)
Module F32.

(** floor of the binary logarithm of a positive rational *)
Definition ilog2 (x : Q) : Z :=
  let e0 := Z.log2 (Qnum x) - Z.log2 (Zpos (Qden x)) in
  if Qle_bool (Qpower 2 e0) x then e0 else e0 - 1.

Definition round_half_even (m : Q) : Z :=
  let q := Qfloor m in
  match Qcompare (m - inject_Z q) (1 # 2) with
  | Lt => q
  | Gt => q + 1
  | Eq => if Z.even q then q else q + 1
  end.

Definition round (x : Q) : Q :=
  match Qcompare x 0 with
  | Eq => 0%Q
  | _ =>
      let e := Z.max (ilog2 (Qabs x)) (-126) in
      let ulp := Qpower 2 (e - 23) in
      Qred (inject_Z (round_half_even (x / ulp)) * ulp)
  end.

Definition add (x y : Q) : Q := round (x + y).
Definition sub (x y : Q) : Q := round (x - y).
Definition mul (x y : Q) : Q := round (x * y).
Definition div (x y : Q) : Q := round (x / y).
(** the conversion [(float)n] of an integer *)
Definition of_int (n : Z) : Q := round (inject_Z n).
(** the conversion of a [float] to [long], which drops the fraction *)
Definition to_long (x : Q) : Z := Z.quot (Qnum x) (Zpos (Qden x)).

End F32.

Definition RPM_L1 : Q := F32.round 6.
Definition RPM_L9 : Q := F32.round 15.

(** ** Helpers of the sketch *)

Definition levelToRpm (lvl : Z) : Q :=
  if lvl <=? 0 then 0%Q
  else F32.add RPM_L1
         (F32.div (F32.mul (F32.sub RPM_L9 RPM_L1) (F32.of_int (lvl - 1)))
                  (F32.round 8)).

Definition computeSafeCm (lvl : Z) : Z :=
  if lvl <=? 0 then BASE_SAFE_CM
  else BASE_SAFE_CM + CM_PER_LEVEL * lvl.

Definition levelFromIrCommand (cmd : Z) : Z :=
  if cmd =? 0x16 then 0
  else if cmd =? 0x0C then 1
  else if cmd =? 0x18 then 2
  else if cmd =? 0x5E then 3
  else if cmd =? 0x08 then 4
  else if cmd =? 0x1C then 5
  else if cmd =? 0x5A then 6
  else if cmd =? 0x42 then 7
  else if cmd =? 0x52 then 8
  else if cmd =? 0x4A then 9
  else -1.

(** [readUltrasonicCm], as a function of the echo pulse width [duration]
    that [pulseIn] returned (0 when it timed out). *)
Definition readUltrasonicCm (duration : Z) : Z :=
  if duration =? 0 then -1
  else
    let cm := duration / 58 in
    if cm <? MIN_CM then MIN_CM else cm.

(** ** Program state

    The sketch's globals, followed by what its output devices were last
    given: the speed received by [Stepper::setSpeed] and the number of single
    steps issued, the level written to the LED pin, the characters printed on each
    LCD row by the last refresh, and the lines sent on the serial port. *)

Record State := mkState {
  commandedLevel : Z;
  effectiveLevel : Z;
  reducing : bool;
  lastPing : Z;
  lastLcd : Z;
  distanceCm : Z;
  ledState : bool;
  stepperRpm : Z;
  stepperSteps : Z;
  ledPin : bool;
  lcdRow0 : list ascii;
  lcdRow1 : list ascii;
  serialLog : list string
}.

Definition set_commandedLevel (v : Z) (s : State) : State :=
  mkState v (effectiveLevel s) (reducing s) (lastPing s) (lastLcd s)
    (distanceCm s) (ledState s) (stepperRpm s) (stepperSteps s) (ledPin s)
    (lcdRow0 s) (lcdRow1 s) (serialLog s).

Definition set_effectiveLevel (v : Z) (s : State) : State :=
  mkState (commandedLevel s) v (reducing s) (lastPing s) (lastLcd s)
    (distanceCm s) (ledState s) (stepperRpm s) (stepperSteps s) (ledPin s)
    (lcdRow0 s) (lcdRow1 s) (serialLog s).

Definition set_reducing (v : bool) (s : State) : State :=
  mkState (commandedLevel s) (effectiveLevel s) v (lastPing s) (lastLcd s)
    (distanceCm s) (ledState s) (stepperRpm s) (stepperSteps s) (ledPin s)
    (lcdRow0 s) (lcdRow1 s) (serialLog s).

Definition set_lastPing (v : Z) (s : State) : State :=
  mkState (commandedLevel s) (effectiveLevel s) (reducing s) v (lastLcd s)
    (distanceCm s) (ledState s) (stepperRpm s) (stepperSteps s) (ledPin s)
    (lcdRow0 s) (lcdRow1 s) (serialLog s).

Definition set_lastLcd (v : Z) (s : State) : State :=
  mkState (commandedLevel s) (effectiveLevel s) (reducing s) (lastPing s) v
    (distanceCm s) (ledState s) (stepperRpm s) (stepperSteps s) (ledPin s)
    (lcdRow0 s) (lcdRow1 s) (serialLog s).

Definition set_distanceCm (v : Z) (s : State) : State :=
  mkState (commandedLevel s) (effectiveLevel s) (reducing s) (lastPing s)
    (lastLcd s) v (ledState s) (stepperRpm s) (stepperSteps s) (ledPin s)
    (lcdRow0 s) (lcdRow1 s) (serialLog s).

Definition set_ledState (v : bool) (s : State) : State :=
  mkState (commandedLevel s) (effectiveLevel s) (reducing s) (lastPing s)
    (lastLcd s) (distanceCm s) v (stepperRpm s) (stepperSteps s) (ledPin s)
    (lcdRow0 s) (lcdRow1 s) (serialLog s).

(** [Stepper::setSpeed(long whatSpeed)] of the Arduino Stepper library *)
Definition stepper_setSpeed (whatSpeed : Z) (s : State) : State :=
  mkState (commandedLevel s) (effectiveLevel s) (reducing s) (lastPing s)
    (lastLcd s) (distanceCm s) (ledState s) whatSpeed (stepperSteps s) (ledPin s)
    (lcdRow0 s) (lcdRow1 s) (serialLog s).

(** [stepper.step(1)] *)
Definition stepper_step (s : State) : State :=
  mkState (commandedLevel s) (effectiveLevel s) (reducing s) (lastPing s)
    (lastLcd s) (distanceCm s) (ledState s) (stepperRpm s)
    (stepperSteps s + 1) (ledPin s) (lcdRow0 s) (lcdRow1 s) (serialLog s).

(** [digitalWrite(LED_PIN, v)] *)
Definition led_write (v : bool) (s : State) : State :=
  mkState (commandedLevel s) (effectiveLevel s) (reducing s) (lastPing s)
    (lastLcd s) (distanceCm s) (ledState s) (stepperRpm s) (stepperSteps s) v
    (lcdRow0 s) (lcdRow1 s) (serialLog s).

(** the characters printed after [lcd.setCursor(0, 0)] and [lcd.setCursor(0, 1)] *)
Definition lcd_write (r0 r1 : list ascii) (s : State) : State :=
  mkState (commandedLevel s) (effectiveLevel s) (reducing s) (lastPing s)
    (lastLcd s) (distanceCm s) (ledState s) (stepperRpm s) (stepperSteps s)
    (ledPin s) r0 r1 (serialLog s).

Definition serial_println (l : string) (s : State) : State :=
  mkState (commandedLevel s) (effectiveLevel s) (reducing s) (lastPing s)
    (lastLcd s) (distanceCm s) (ledState s) (stepperRpm s) (stepperSteps s)
    (ledPin s) (lcdRow0 s) (lcdRow1 s) (serialLog s ++ [l]).

(** ** Text formatting *)

Definition chars (s : string) : list ascii := list_ascii_of_string s.

(** [%d] and [%ld] *)
Definition dec (n : Z) : list ascii := chars (NilZero.string_of_int (Z.to_int n)).

Definition spaces (n : nat) : list ascii := repeat " "%char n.

(** a conversion with minimum field width [w], right-justified *)
Definition pad_left (w : nat) (l : list ascii) : list ascii :=
  spaces (w - List.length l) ++ l.

(** [snprintf(buf, size, ...)] keeps at most [size - 1] characters. *)
Definition snprintf (size : nat) (full : list ascii) : list ascii :=
  firstn (size - 1) full.

(** [lcd.print(txt); for (int i = strlen(txt); i < 16; i++) lcd.print(' ');] *)
Definition lcd_print_padded (txt : list ascii) : list ascii :=
  txt ++ spaces (16 - List.length txt).

Definition MSG_OBSTACLE : list ascii := chars "Obstacle Detected".
Definition MSG_NORMAL : list ascii := chars "MODE: NORMAL   ".

(** ** Actions of the sketch *)

(** [stepper.setSpeed(rpm)] passes the [float] to a [long] parameter. *)
Definition applyLevel (lvl : Z) (s : State) : State :=
  let s1 := set_effectiveLevel (constrain lvl 0 9) s in
  let rpm := levelToRpm (effectiveLevel s1) in
  stepper_setSpeed (F32.to_long rpm) s1.

Definition lcd_line1 (s : State) : list ascii :=
  snprintf 17
    (chars "L:" ++ dec (commandedLevel s) ++ chars " E:" ++ dec (effectiveLevel s)
     ++ chars " D:"
     ++ pad_left 3 (dec (if distanceCm s <? 0 then 0 else distanceCm s))
     ++ chars "cm").

Definition lcd_row0 (s : State) : list ascii := lcd_print_padded (lcd_line1 s).

Definition lcd_row1 (s : State) : list ascii :=
  if (distanceCm s >=? 0) && (distanceCm s <? 20)
  then lcd_print_padded MSG_OBSTACLE
  else MSG_NORMAL.

Definition updateLcd (s : State) : State := lcd_write (lcd_row0 s) (lcd_row1 s) s.

(** Globals as initialised at power-on, then [setup]. *)
Definition power_on : State :=
  mkState 0 0 false 0 0 (-1) false 0 0 false [] [] [].

Definition setup (s : State) : State :=
  let s := serial_println "IR ready. Press digits 0..9 (0=stop)." s in
  let s := lcd_write [] [] s in
  let s := set_commandedLevel 0 s in
  let s := applyLevel 0 s in
  let s := set_reducing false s in
  led_write false s.

Definition init : State := setup power_on.

(** What one pass of [loop] reads from the outside: the decoded IR frame if
    [IrReceiver.decode()] succeeded, the value of [millis()], and the pulse
    width [pulseIn] returns if the pass pings. *)
Record IRData := mkIR { is_repeat : bool; command : Z }.
Record LoopInput := mkInput { ir : option IRData; now : Z; echo : Z }.

(** IR handling (with [IR_DIAGNOSTIC] 0).  The decoded command is passed to
    [levelFromIrCommand] through its [uint8_t] parameter. *)
Definition handle_ir (i : option IRData) (s : State) : State :=
  match i with
  | None => s
  | Some d =>
      if is_repeat d then s
      else
        let lvl := levelFromIrCommand (uint8 (command d)) in
        if (lvl >=? 0) && (lvl <=? 9)
        then serial_println ("Set level to " ++ string_of_list_ascii (dec lvl))%string
               (set_commandedLevel lvl s)
        else s
  end.

(** The regulation decision of a sampling tick, on the sample stored in
    [distanceCm]. *)
Definition regulate (s : State) : State :=
  let safeCm := computeSafeCm (commandedLevel s) in
  if distanceCm s <? 0 then
    applyLevel (commandedLevel s) (set_reducing false s)
  else if distanceCm s <? safeCm then
    let clamped := constrain (distanceCm s) MIN_CM safeCm in
    let reduced :=
      if commandedLevel s =? 0 then 0
      else map clamped MIN_CM safeCm 0 (commandedLevel s) in
    applyLevel reduced (set_reducing (reduced <? commandedLevel s) s)
  else if distanceCm s >? safeCm + HYSTERESIS_CM then
    applyLevel (commandedLevel s) (set_reducing false s)
  else s.

(** LED hysteresis of a sampling tick *)
Definition led_control (s : State) : State :=
  let s1 :=
    if distanceCm s >=? 0 then
      let s' :=
        if negb (ledState s) && (distanceCm s <? LED_ON_CM)
        then set_ledState true s else s in
      if ledState s' && (distanceCm s' >? LED_OFF_CM)
      then set_ledState false s' else s'
    else s in
  led_write (ledState s1) s1.

(** A sampling tick whose distance sample is [d]. *)
Definition sample_tick (d : Z) (s : State) : State :=
  led_control (regulate (set_distanceCm d s)).

Definition ping_due (t : Z) (s : State) : bool :=
  ulong_sub t (lastPing s) >=? PING_INTERVAL_MS.

Definition lcd_due (t : Z) (s : State) : bool :=
  ulong_sub t (lastLcd s) >=? LCD_REFRESH_MS.

(** One pass of [loop]. *)
Definition loop (i : LoopInput) (s : State) : State :=
  let s1 := handle_ir (ir i) s in
  let s2 :=
    if ping_due (now i) s1
    then sample_tick (readUltrasonicCm (echo i)) (set_lastPing (now i) s1)
    else s1 in
  let s3 :=
    if lcd_due (now i) s2 then updateLcd (set_lastLcd (now i) s2) else s2 in
  if effectiveLevel s3 >? 0 then stepper_step s3 else s3.

(** The state after a run of passes. *)
Definition run (ins : list LoopInput) (s : State) : State :=
  fold_left (fun st i => loop i st) ins s.

(** ** Properties used to state the results *)

(** The sample [d] lies in the hysteresis band of the commanded level of [s]. *)
Definition in_band (d : Z) (s : State) : bool :=
  (computeSafeCm (commandedLevel s) <=? d)
  && (d <=? computeSafeCm (commandedLevel s) + HYSTERESIS_CM).

(** The effective level is the commanded level, reduced or not as the flag says. *)
Definition level_ok (s : State) : Prop :=
  effectiveLevel s <= commandedLevel s
  /\ reducing s = (effectiveLevel s <? commandedLevel s).

(** Bookkeeping along a run: [g] tells whether the levels have been settled,
    that is, whether no command has changed [commandedLevel] since the last
    sampling tick that decided outside the hysteresis band (or since [setup]). *)
Definition settled_after (i : LoopInput) (s : State) (g : bool) : bool :=
  let s1 := handle_ir (ir i) s in
  let g1 := g && (commandedLevel s1 =? commandedLevel s) in
  if ping_due (now i) s1
  then g1 || negb (in_band (readUltrasonicCm (echo i)) s1)
  else g1.

Fixpoint settled (ins : list LoopInput) (s : State) (g : bool) : bool :=
  match ins with
  | [] => g
  | i :: rest => settled rest (loop i s) (settled_after i s g)
  end.

(** The state after a run of sampling ticks with the given samples. *)
Definition sample_run (ds : list Z) (s : State) : State :=
  fold_left (fun st d => sample_tick d st) ds s.

(** The integer nearest to a rational (halves upward). *)
Definition nearest_int (q : Q) : Z := Qfloor (q + (1 # 2)).

(** A pass that receives the non-repeated IR code [c] at time [t] and, if it
    pings, an echo from [cm] centimetres. *)
Definition press (c t cm : Z) : LoopInput :=
  mkInput (Some (mkIR false c)) t (cm * 58).

(** A pass without IR frame. *)
Definition idle (t cm : Z) : LoopInput := mkInput None t (cm * 58).

(** Level 5 commanded with an obstacle at the minimum distance: stopped. *)
Definition s_level5_blocked : State := run [press 0x1C 60 2] init.

(** Level 5 commanded, no echo: running at level 5. *)
Definition s_level5_clear : State := run [mkInput (Some (mkIR false 0x1C)) 60 0] init.

(** ** Further notions used in the results *)

(** The IR codes of the digits, in the order of the levels 0..9 (the [case]
    labels of [levelFromIrCommand]). *)
Definition digit_codes : list Z :=
  [0x16; 0x0C; 0x18; 0x5E; 0x08; 0x1C; 0x5A; 0x42; 0x52; 0x4A].

(** No frame, a repeat frame, or a frame whose code is not a digit code. *)
Definition ignored (i : option IRData) : bool :=
  match i with
  | None => true
  | Some d =>
      is_repeat d || negb (existsb (Z.eqb (uint8 (command d))) digit_codes)
  end.

(** A sample on which the alert decides: valid and outside
    [LED_ON_CM .. LED_OFF_CM]. *)
Definition decisive (d : Z) : bool :=
  (0 <=? d) && ((d <? LED_ON_CM) || (LED_OFF_CM <? d)).

(** The outputs agree with the variables they are derived from. *)
Definition consistent (s : State) : Prop :=
  0 <= commandedLevel s <= 9
  /\ 0 <= effectiveLevel s <= 9
  /\ stepperRpm s = F32.to_long (levelToRpm (effectiveLevel s))
  /\ ledPin s = ledState s.

(** The number of passes of a run after which the motor was stepped. *)
Fixpoint stepping_passes (ins : list LoopInput) (s : State) : Z :=
  match ins with
  | [] => 0
  | i :: rest =>
      (if effectiveLevel (loop i s) >? 0 then 1 else 0)
      + stepping_passes rest (loop i s)
  end.

(** * Results *)

(** ** Arithmetic of the helpers *)

Ltac zcases :=
  repeat match goal with
    | |- context [?a <? ?b] => destruct (Z.ltb_spec a b)
    | |- context [?a <=? ?b] => destruct (Z.leb_spec a b)
    | |- context [?a >? ?b] => rewrite (Z.gtb_ltb a b)
    | |- context [?a >=? ?b] => rewrite (Z.geb_leb a b)
    | |- context [?a =? ?b] => destruct (Z.eqb_spec a b)
    end.

Lemma constrain_id (x lo hi : Z) : lo <= x <= hi -> constrain x lo hi = x.
Proof. intros H. unfold constrain. zcases; lia. Qed.

Lemma constrain_range (x lo hi : Z) : lo <= hi -> lo <= constrain x lo hi <= hi.
Proof. intros H. unfold constrain. zcases; lia. Qed.

Lemma computeSafeCm_pos (lvl : Z) :
  0 < lvl -> computeSafeCm lvl = BASE_SAFE_CM + CM_PER_LEVEL * lvl.
Proof. intros H. unfold computeSafeCm. zcases; lia. Qed.

Lemma computeSafeCm_lower (lvl : Z) : BASE_SAFE_CM <= computeSafeCm lvl.
Proof. unfold computeSafeCm, BASE_SAFE_CM, CM_PER_LEVEL. zcases; lia. Qed.

Lemma computeSafeCm_mono (a b : Z) : a <= b -> computeSafeCm a <= computeSafeCm b.
Proof. intros H. unfold computeSafeCm, BASE_SAFE_CM, CM_PER_LEVEL. zcases; lia. Qed.

Lemma readUltrasonicCm_timeout : readUltrasonicCm 0 = -1.
Proof. reflexivity. Qed.

(** A sample is the no-echo sentinel or at least the minimum distance. *)
Lemma readUltrasonicCm_range (duration : Z) :
  0 <= duration ->
  readUltrasonicCm duration = -1 \/ MIN_CM <= readUltrasonicCm duration.
Proof.
  intros H. unfold readUltrasonicCm, MIN_CM. zcases; auto; right; lia.
Qed.

Lemma readUltrasonicCm_cm (cm : Z) :
  MIN_CM <= cm -> readUltrasonicCm (cm * 58) = cm.
Proof.
  unfold readUltrasonicCm, MIN_CM. intros H.
  rewrite Z.div_mul by lia. zcases; lia.
Qed.

(** The interpolation of the reduction branch: for a level in 1..9 and a
    sample below the safe distance, [map] is the quotient rounded down and
    lies below the level. *)
Lemma map_reduction (d lvl : Z) :
  0 < lvl ->
  let safeCm := computeSafeCm lvl in
  let clamped := constrain d MIN_CM safeCm in
  d < safeCm ->
  map clamped MIN_CM safeCm 0 lvl = lvl * (Z.max d MIN_CM - MIN_CM) / (safeCm - MIN_CM)
  /\ 0 <= map clamped MIN_CM safeCm 0 lvl < lvl.
Proof.
  intros Hl safeCm clamped Hd.
  assert (Hs : safeCm = 10 + 5 * lvl) by (apply computeSafeCm_pos; exact Hl).
  assert (Hc : clamped = Z.max d MIN_CM).
  { unfold clamped, constrain, MIN_CM. zcases; lia. }
  unfold map. rewrite Hc, Z.sub_0_r, Z.add_0_r.
  assert (Hn : 0 <= Z.max d MIN_CM - MIN_CM) by lia.
  assert (Hm : Z.max d MIN_CM - MIN_CM < safeCm - MIN_CM) by (unfold MIN_CM in *; lia).
  rewrite Z.quot_div_nonneg by (unfold MIN_CM in *; nia).
  rewrite (Z.mul_comm (Z.max d MIN_CM - MIN_CM) lvl).
  split; [reflexivity|].
  split.
  - apply Z.div_pos; unfold MIN_CM in *; nia.
  - apply Z.div_lt_upper_bound; unfold MIN_CM in *; nia.
Qed.

(** The product [map] forms in the reduction branch. *)
Lemma map_product_range (d lvl : Z) :
  0 < lvl <= 9 ->
  d < computeSafeCm lvl ->
  computeSafeCm lvl <= 55
  /\ 0 <= (constrain d MIN_CM (computeSafeCm lvl) - MIN_CM) * (lvl - 0) <= 477.
Proof.
  intros Hl Hd. rewrite computeSafeCm_pos in * by lia.
  unfold constrain, BASE_SAFE_CM, CM_PER_LEVEL, MIN_CM in *.
  split; [lia|]. zcases; nia.
Qed.

(** ** What a sampling tick does to each variable *)

Lemma led_control_frame (s : State) :
  commandedLevel (led_control s) = commandedLevel s
  /\ effectiveLevel (led_control s) = effectiveLevel s
  /\ reducing (led_control s) = reducing s
  /\ stepperRpm (led_control s) = stepperRpm s
  /\ distanceCm (led_control s) = distanceCm s
  /\ serialLog (led_control s) = serialLog s.
Proof.
  unfold led_control.
  destruct (distanceCm s >=? 0); [|simpl; tauto].
  destruct (negb (ledState s) && (distanceCm s <? LED_ON_CM)); simpl;
    match goal with |- context [if ?c then _ else _] => destruct c end;
    simpl; tauto.
Qed.

Lemma regulate_frame (s : State) :
  commandedLevel (regulate s) = commandedLevel s
  /\ distanceCm (regulate s) = distanceCm s
  /\ ledState (regulate s) = ledState s
  /\ serialLog (regulate s) = serialLog s.
Proof.
  unfold regulate.
  repeat match goal with |- context [if ?c then _ else _] => destruct c end;
    simpl; tauto.
Qed.

Lemma sample_tick_commandedLevel (d : Z) (s : State) :
  commandedLevel (sample_tick d s) = commandedLevel s.
Proof.
  unfold sample_tick.
  destruct (led_control_frame (regulate (set_distanceCm d s))) as (-> & _).
  destruct (regulate_frame (set_distanceCm d s)) as (-> & _). reflexivity.
Qed.

(** The three decisions of a tick, on the level, the flag and the speed. *)
Lemma sample_tick_no_echo (d : Z) (s : State) :
  d < 0 ->
  effectiveLevel (sample_tick d s) = constrain (commandedLevel s) 0 9
  /\ reducing (sample_tick d s) = false
  /\ stepperRpm (sample_tick d s)
     = F32.to_long (levelToRpm (constrain (commandedLevel s) 0 9)).
Proof.
  intros H. unfold sample_tick.
  destruct (led_control_frame (regulate (set_distanceCm d s))) as (_ & -> & -> & -> & _).
  unfold regulate. simpl.
  destruct (Z.ltb_spec d 0); [|lia]. simpl. auto.
Qed.

Lemma sample_tick_clear (d : Z) (s : State) :
  computeSafeCm (commandedLevel s) + HYSTERESIS_CM < d ->
  effectiveLevel (sample_tick d s) = constrain (commandedLevel s) 0 9
  /\ reducing (sample_tick d s) = false
  /\ stepperRpm (sample_tick d s)
     = F32.to_long (levelToRpm (constrain (commandedLevel s) 0 9)).
Proof.
  intros H. unfold sample_tick.
  destruct (led_control_frame (regulate (set_distanceCm d s))) as (_ & -> & -> & -> & _).
  pose proof (computeSafeCm_lower (commandedLevel s)) as Hlo.
  unfold regulate, HYSTERESIS_CM, BASE_SAFE_CM in *. simpl.
  destruct (Z.ltb_spec d 0); [lia|].
  destruct (Z.ltb_spec d (computeSafeCm (commandedLevel s))); [lia|].
  rewrite Z.gtb_ltb.
  destruct (Z.ltb_spec (computeSafeCm (commandedLevel s) + 3) d); [|lia].
  simpl. auto.
Qed.

Lemma sample_tick_band (d : Z) (s : State) :
  computeSafeCm (commandedLevel s) <= d <= computeSafeCm (commandedLevel s) + HYSTERESIS_CM ->
  effectiveLevel (sample_tick d s) = effectiveLevel s
  /\ reducing (sample_tick d s) = reducing s
  /\ stepperRpm (sample_tick d s) = stepperRpm s.
Proof.
  intros H. unfold sample_tick.
  destruct (led_control_frame (regulate (set_distanceCm d s))) as (_ & -> & -> & -> & _).
  pose proof (computeSafeCm_lower (commandedLevel s)) as Hlo.
  unfold regulate, HYSTERESIS_CM, BASE_SAFE_CM in *. simpl.
  destruct (Z.ltb_spec d 0); [lia|].
  destruct (Z.ltb_spec d (computeSafeCm (commandedLevel s))); [lia|].
  rewrite Z.gtb_ltb.
  destruct (Z.ltb_spec (computeSafeCm (commandedLevel s) + 3) d); [lia|].
  simpl. auto.
Qed.

Lemma sample_tick_reduce (d : Z) (s : State) :
  0 <= d < computeSafeCm (commandedLevel s) ->
  let safeCm := computeSafeCm (commandedLevel s) in
  let reduced :=
    if commandedLevel s =? 0 then 0
    else map (constrain d MIN_CM safeCm) MIN_CM safeCm 0 (commandedLevel s) in
  effectiveLevel (sample_tick d s) = constrain reduced 0 9
  /\ reducing (sample_tick d s) = (reduced <? commandedLevel s)
  /\ stepperRpm (sample_tick d s) = F32.to_long (levelToRpm (constrain reduced 0 9)).
Proof.
  intros H safeCm reduced. unfold sample_tick.
  destruct (led_control_frame (regulate (set_distanceCm d s))) as (_ & -> & -> & -> & _).
  unfold regulate. simpl.
  destruct (Z.ltb_spec d 0); [lia|].
  destruct (Z.ltb_spec d (computeSafeCm (commandedLevel s))); [|lia].
  simpl. auto.
Qed.

(** ** Safe threshold *)

(** C8: for levels [a <= b] in 0..9, the safe distance of [a] is at most the
    safe distance of [b]. *)
Theorem safe_threshold_monotone (a b : Z) :
  0 <= a <= 9 -> 0 <= b <= 9 -> a <= b ->
  computeSafeCm a <= computeSafeCm b.
Proof. intros _ _ H. apply computeSafeCm_mono. exact H. Qed.

Lemma safe_threshold_monotone_witness :
  0 <= 2 <= 9 /\ 0 <= 7 <= 9 /\ 2 <= 7 /\ computeSafeCm 2 <= computeSafeCm 7.
Proof.
  repeat split; try lia.
  apply (safe_threshold_monotone 2 7); lia.
Defined.

(** ** Some reachable states *)

Lemma s_level5_blocked_levels :
  commandedLevel s_level5_blocked = 5 /\ effectiveLevel s_level5_blocked = 0
  /\ reducing s_level5_blocked = true.
Proof. vm_compute. auto. Qed.

Lemma s_level5_clear_levels :
  commandedLevel s_level5_clear = 5 /\ effectiveLevel s_level5_clear = 5
  /\ reducing s_level5_clear = false.
Proof. vm_compute. auto. Qed.

(** ** The regulation decision *)

(** C3: with a commanded level above 0 and a sample in the band from the safe
    distance to the safe distance plus the margin, a tick leaves the effective
    level and the reducing flag (and the speed) as they were. *)
Theorem hysteresis_band_holds (s : State) (d : Z) :
  0 < commandedLevel s ->
  computeSafeCm (commandedLevel s) <= d <= computeSafeCm (commandedLevel s) + HYSTERESIS_CM ->
  effectiveLevel (sample_tick d s) = effectiveLevel s
  /\ reducing (sample_tick d s) = reducing s
  /\ stepperRpm (sample_tick d s) = stepperRpm s.
Proof. intros _ H. apply sample_tick_band. exact H. Qed.

Lemma hysteresis_band_holds_witness :
  effectiveLevel (sample_tick 36 s_level5_blocked) = effectiveLevel s_level5_blocked
  /\ reducing (sample_tick 36 s_level5_blocked) = reducing s_level5_blocked
  /\ stepperRpm (sample_tick 36 s_level5_blocked) = stepperRpm s_level5_blocked.
Proof.
  apply (hysteresis_band_holds s_level5_blocked 36).
  - destruct s_level5_blocked_levels as (-> & _). lia.
  - destruct s_level5_blocked_levels as (-> & _). vm_compute. split; discriminate.
Defined.

(** C4, as the code has it: with a commanded level in 1..9 and a sample at or
    above the safe distance, a tick sets the effective level to the commanded
    one (and clears the flag) when the sample is above the safe distance plus
    the margin, whatever the level was; up to the margin it keeps the level. *)
Theorem full_level_above_band (s : State) (d : Z) :
  0 < commandedLevel s <= 9 ->
  computeSafeCm (commandedLevel s) <= d ->
  (computeSafeCm (commandedLevel s) + HYSTERESIS_CM < d ->
   effectiveLevel (sample_tick d s) = commandedLevel s
   /\ reducing (sample_tick d s) = false)
  /\ (d <= computeSafeCm (commandedLevel s) + HYSTERESIS_CM ->
      effectiveLevel (sample_tick d s) = effectiveLevel s).
Proof.
  intros HL Hd. split; intros H.
  - destruct (sample_tick_clear d s H) as (-> & -> & _).
    rewrite constrain_id by lia. auto.
  - apply sample_tick_band. lia.
Qed.

Lemma full_level_above_band_witness :
  effectiveLevel (sample_tick 39 s_level5_blocked) = 5
  /\ effectiveLevel (sample_tick 38 s_level5_blocked) = 0.
Proof.
  assert (Hc : commandedLevel s_level5_blocked = 5) by apply s_level5_blocked_levels.
  assert (He : effectiveLevel s_level5_blocked = 0) by apply s_level5_blocked_levels.
  assert (HL : 0 < commandedLevel s_level5_blocked <= 9) by (rewrite Hc; lia).
  split.
  - rewrite <- Hc.
    destruct (full_level_above_band s_level5_blocked 39 HL) as (Habove & _).
    + rewrite Hc. vm_compute. discriminate.
    + apply Habove. rewrite Hc. vm_compute. reflexivity.
  - rewrite <- He.
    destruct (full_level_above_band s_level5_blocked 38 HL) as (_ & Hband).
    + rewrite Hc. vm_compute. discriminate.
    + apply Hband. rewrite Hc. vm_compute. discriminate.
Defined.

(** C4 as stated fails: after level 5 was commanded and reduced to 0 by an
    obstacle at 2 cm, a sample of 35 cm, which is the safe distance of level 5,
    leaves the effective level at 0. *)
Lemma full_level_at_threshold_fails :
  ~ (forall (ins : list LoopInput) (d : Z),
       let s := run ins init in
       0 < commandedLevel s -> 0 <= d -> computeSafeCm (commandedLevel s) <= d ->
       effectiveLevel (sample_tick d s) = commandedLevel s).
Proof.
  intros H.
  specialize (H [press 0x1C 60 2] 35). cbv zeta in H.
  assert (E : effectiveLevel (sample_tick 35 (run [press 0x1C 60 2] init))
              = commandedLevel (run [press 0x1C 60 2] init)).
  { apply H; vm_compute; congruence. }
  vm_compute in E. discriminate E.
Qed.

(** C5: with a commanded level in 0..9, a tick whose ping timed out sets the
    effective level to the commanded level and clears the reducing flag; the
    stepper receives the rate of the commanded level without its fraction,
    the commanded level is kept and nothing is reported on the serial port. *)
Theorem no_echo_runs_at_commanded_level (s : State) :
  0 <= commandedLevel s <= 9 ->
  let s' := sample_tick (readUltrasonicCm 0) s in
  effectiveLevel s' = commandedLevel s
  /\ reducing s' = false
  /\ stepperRpm s' = F32.to_long (levelToRpm (commandedLevel s))
  /\ commandedLevel s' = commandedLevel s
  /\ serialLog s' = serialLog s.
Proof.
  intros H s'. subst s'. rewrite readUltrasonicCm_timeout.
  destruct (sample_tick_no_echo (-1) s) as (-> & -> & ->); [lia|].
  rewrite constrain_id by lia.
  rewrite sample_tick_commandedLevel.
  do 4 (split; [reflexivity|]).
  unfold sample_tick.
  destruct (led_control_frame (regulate (set_distanceCm (-1) s))) as (_ & _ & _ & _ & _ & ->).
  destruct (regulate_frame (set_distanceCm (-1) s)) as (_ & _ & _ & ->).
  reflexivity.
Qed.

Lemma no_echo_runs_at_commanded_level_witness :
  let s' := sample_tick (readUltrasonicCm 0) s_level5_blocked in
  effectiveLevel s' = commandedLevel s_level5_blocked
  /\ reducing s' = false
  /\ stepperRpm s' = F32.to_long (levelToRpm (commandedLevel s_level5_blocked))
  /\ commandedLevel s' = commandedLevel s_level5_blocked
  /\ serialLog s' = serialLog s_level5_blocked.
Proof.
  apply (no_echo_runs_at_commanded_level s_level5_blocked).
  destruct s_level5_blocked_levels as (-> & _). lia.
Defined.

(** C2, as the code has it: with a commanded level [L] in 1..9 and a valid
    sample [d] below the safe distance, a tick sets the effective level to the
    linear interpolation of the clamped sample from [MIN_CM .. safe] onto
    [0 .. L] with the quotient truncated, [L * (max d MIN_CM - MIN_CM) /
    (safe - MIN_CM)] rounded down, and the flag tells that this is below [L];
    with [L = 5] and [d = 20] the level is 90 / 33 rounded down, which is 2. *)
Theorem reduction_is_truncated_interpolation (s : State) (d : Z) :
  0 < commandedLevel s <= 9 ->
  0 <= d < computeSafeCm (commandedLevel s) ->
  let L := commandedLevel s in
  let x := Z.max d MIN_CM - MIN_CM in
  let span := computeSafeCm L - MIN_CM in
  let e := effectiveLevel (sample_tick d s) in
  e = L * x / span
  /\ e * span <= L * x < (e + 1) * span
  /\ reducing (sample_tick d s) = (e <? L)
  /\ (L = 5 -> d = 20 -> e = 2).
Proof.
  intros HL Hd L x span e.
  destruct (sample_tick_reduce d s Hd) as (He & Hr & _).
  destruct (map_reduction d L (proj1 HL) (proj2 Hd)) as (Hm & Hb).
  fold L in He, Hr.
  destruct (Z.eqb_spec L 0) as [E|_]; [lia|].
  rewrite constrain_id in He by lia.
  assert (Hspan : 0 < span).
  { unfold span. pose proof (computeSafeCm_lower L). unfold BASE_SAFE_CM, MIN_CM in *. lia. }
  assert (Ee : e = L * x / span) by (unfold e; rewrite He; exact Hm).
  split; [exact Ee|]. split; [|split].
  - rewrite Ee.
    pose proof (Z.mul_div_le (L * x) span Hspan) as Hlo.
    pose proof (Z.mul_succ_div_gt (L * x) span Hspan) as Hhi.
    lia.
  - unfold e. rewrite He. exact Hr.
  - intros E5 E20. rewrite Ee. unfold x, span. rewrite E5, E20. reflexivity.
Qed.

Lemma reduction_is_truncated_interpolation_witness :
  effectiveLevel (sample_tick 20 s_level5_clear) = 2.
Proof.
  assert (Hc : commandedLevel s_level5_clear = 5) by apply s_level5_clear_levels.
  destruct (reduction_is_truncated_interpolation s_level5_clear 20)
    as (_ & _ & _ & H520).
  - rewrite Hc. lia.
  - rewrite Hc. vm_compute. split; [discriminate | reflexivity].
  - apply H520; [exact Hc | reflexivity].
Defined.

(** C2 as stated fails: with level 5 commanded and a sample of 20 cm the
    effective level is not the nearest integer to 5 * (20 - 2) / (35 - 2),
    which is 3. *)
Lemma nearest_interpolation_fails :
  commandedLevel s_level5_clear = 5
  /\ computeSafeCm 5 = 35
  /\ nearest_int (5 * (20 - 2) / (35 - 2)) = 3
  /\ effectiveLevel (sample_tick 20 s_level5_clear)
     <> nearest_int (5 * (20 - 2) / (35 - 2)).
Proof. vm_compute. repeat split; discriminate. Qed.

(** ** The alert indicator *)

Lemma led_step (d : Z) (s : State) :
  ledState (sample_tick d s) =
    (if d <? 0 then ledState s
     else if d <? LED_ON_CM then true
     else if LED_OFF_CM <? d then false
     else ledState s)
  /\ ledPin (sample_tick d s) = ledState (sample_tick d s).
Proof.
  unfold sample_tick.
  destruct (regulate_frame (set_distanceCm d s)) as (_ & Hd & Hl & _).
  simpl in Hd, Hl.
  set (r := regulate (set_distanceCm d s)) in *. clearbody r.
  destruct r; simpl in Hd, Hl; subst.
  unfold led_control, LED_ON_CM, LED_OFF_CM. simpl.
  rewrite Z.geb_leb, Z.gtb_ltb.
  destruct (Z.leb_spec 0 d), (Z.ltb_spec d 0); try lia; [|simpl; auto].
  destruct (ledState s), (Z.ltb_spec d 20), (Z.ltb_spec 25 d); simpl;
    rewrite ?Z.gtb_ltb;
    repeat match goal with
      | |- context [25 <? d] => destruct (Z.ltb_spec 25 d)
      end; simpl; auto; lia.
Qed.

(** C6: the alert starts off; after any run of samples, a valid sample below
    [LED_ON_CM] turns it on, it stays on for a valid sample from [LED_ON_CM]
    to [LED_OFF_CM], a sample above [LED_OFF_CM] turns it off, and a no-echo
    sample leaves it as it is; the LED pin is written with the state. *)
Theorem alert_hysteresis (ds : list Z) (d : Z) :
  ledState init = false
  /\ let s := sample_run ds init in
     (0 <= d < LED_ON_CM -> ledState (sample_tick d s) = true)
     /\ (ledState s = true -> LED_ON_CM <= d <= LED_OFF_CM ->
         ledState (sample_tick d s) = true)
     /\ (LED_OFF_CM < d -> ledState (sample_tick d s) = false)
     /\ (d < 0 -> ledState (sample_tick d s) = ledState s)
     /\ ledPin (sample_tick d s) = ledState (sample_tick d s).
Proof.
  split; [reflexivity|].
  intros s. destruct (led_step d s) as (E & Ep).
  unfold LED_ON_CM, LED_OFF_CM in *.
  repeat split; try exact Ep; intros; rewrite E;
    destruct (Z.ltb_spec d 0), (Z.ltb_spec d 20), (Z.ltb_spec 25 d);
    auto; lia.
Qed.

Lemma alert_hysteresis_witness :
  ledState (sample_tick 19 (sample_run [30; -1] init)) = true
  /\ ledState (sample_tick 21 (sample_run [19] init)) = true
  /\ ledState (sample_tick 26 (sample_run [19; 21] init)) = false
  /\ ledState (sample_tick (-1) (sample_run [19; 21] init))
     = ledState (sample_run [19; 21] init).
Proof.
  split; [|split; [|split]].
  - destruct (alert_hysteresis [30; -1] 19) as (_ & Hon & _).
    apply Hon. unfold LED_ON_CM. lia.
  - destruct (alert_hysteresis [19] 21) as (_ & _ & Hstay & _).
    apply Hstay.
    + vm_compute. reflexivity.
    + unfold LED_ON_CM, LED_OFF_CM. lia.
  - destruct (alert_hysteresis [19; 21] 26) as (_ & _ & _ & Hoff & _).
    apply Hoff. unfold LED_OFF_CM. lia.
  - destruct (alert_hysteresis [19; 21] (-1)) as (_ & _ & _ & _ & Hkeep & _).
    apply Hkeep. lia.
Defined.

(** ** Level to rate *)

(** The rounding on known binary32 values: 1/3 is 0x3EAAAAAB, 1/10 is
    0x3DCCCCCD, and 2^24 + 1 is a tie that goes to the even neighbour. *)
Example f32_round_third : F32.round (1 # 3) = (11184811 # 33554432)%Q.
Proof. vm_compute. reflexivity. Qed.

Example f32_round_tenth : F32.round (1 # 10) = (13421773 # 134217728)%Q.
Proof. vm_compute. reflexivity. Qed.

Example f32_round_tie : F32.round 16777217 = 16777216%Q /\ F32.round 16777219 = 16777220%Q.
Proof. vm_compute. split; reflexivity. Qed.

Lemma level_cases (lvl : Z) :
  1 <= lvl <= 9 ->
  lvl = 1 \/ lvl = 2 \/ lvl = 3 \/ lvl = 4 \/ lvl = 5 \/ lvl = 6 \/ lvl = 7
  \/ lvl = 8 \/ lvl = 9.
Proof. lia. Qed.

(** Every binary32 operation of [levelToRpm] is exact on the levels 1..9. *)
Lemma levelToRpm_exact (lvl : Z) :
  1 <= lvl <= 9 ->
  (levelToRpm lvl == 6 + (15 - 6) * inject_Z (lvl - 1) / 8)%Q.
Proof.
  intros H.
  destruct (level_cases lvl H) as [E|[E|[E|[E|[E|[E|[E|[E|E]]]]]]]];
    subst lvl; vm_compute; reflexivity.
Qed.

(** C9: level 0 gives rate zero; a level in 1..9 gives the rate of level 1
    plus (rate of level 9 - rate of level 1) * (level - 1) / 8, where these
    rates are [RPM_L1] and [RPM_L9]; level 5 gives their mean. *)
Theorem level_rate_is_linear (lvl : Z) :
  1 <= lvl <= 9 ->
  levelToRpm 0 = 0%Q
  /\ levelToRpm 1 = RPM_L1
  /\ levelToRpm 9 = RPM_L9
  /\ (levelToRpm lvl ==
      levelToRpm 1 + (levelToRpm 9 - levelToRpm 1) * inject_Z (lvl - 1) / 8)%Q
  /\ (levelToRpm 5 == (levelToRpm 1 + levelToRpm 9) / 2)%Q.
Proof.
  intros H.
  split; [reflexivity|]. split; [vm_compute; reflexivity|].
  split; [vm_compute; reflexivity|]. split.
  - rewrite (levelToRpm_exact lvl H).
    rewrite (levelToRpm_exact 1), (levelToRpm_exact 9) by lia.
    simpl inject_Z. field.
  - vm_compute. reflexivity.
Qed.

Lemma level_rate_is_linear_witness :
  (levelToRpm 3 ==
   levelToRpm 1 + (levelToRpm 9 - levelToRpm 1) * inject_Z (3 - 1) / 8)%Q.
Proof.
  destruct (level_rate_is_linear 3) as (_ & _ & _ & Hlin & _); [lia|].
  exact Hlin.
Defined.

(** ** Command handling *)

Lemma handle_ir_frame (i : option IRData) (s : State) :
  effectiveLevel (handle_ir i s) = effectiveLevel s
  /\ reducing (handle_ir i s) = reducing s
  /\ stepperRpm (handle_ir i s) = stepperRpm s
  /\ distanceCm (handle_ir i s) = distanceCm s
  /\ ledState (handle_ir i s) = ledState s
  /\ lastPing (handle_ir i s) = lastPing s.
Proof.
  unfold handle_ir. destruct i as [d|]; [|tauto].
  destruct (is_repeat d); [tauto|].
  destruct ((levelFromIrCommand (uint8 (command d)) >=? 0)
            && (levelFromIrCommand (uint8 (command d)) <=? 9)); simpl; tauto.
Qed.

Lemma handle_ir_range (i : option IRData) (s : State) :
  0 <= commandedLevel s <= 9 -> 0 <= commandedLevel (handle_ir i s) <= 9.
Proof.
  intros H. unfold handle_ir. destruct i as [d|]; [|exact H].
  destruct (is_repeat d); [exact H|].
  rewrite Z.geb_leb.
  destruct (Z.leb_spec 0 (levelFromIrCommand (uint8 (command d))));
    destruct (Z.leb_spec (levelFromIrCommand (uint8 (command d))) 9); simpl; lia.
Qed.

Lemma handle_ir_accept (c : Z) (s : State) :
  0 <= levelFromIrCommand (uint8 c) <= 9 ->
  commandedLevel (handle_ir (Some (mkIR false c)) s) = levelFromIrCommand (uint8 c).
Proof.
  intros H. unfold handle_ir. cbn [is_repeat command]. rewrite Z.geb_leb.
  destruct (Z.leb_spec 0 (levelFromIrCommand (uint8 c)));
    destruct (Z.leb_spec (levelFromIrCommand (uint8 c)) 9); simpl; lia.
Qed.

(** A code is rejected exactly when it is none of the ten digit codes. *)
Lemma handle_ir_reject (c : Z) (s : State) :
  levelFromIrCommand (uint8 c) = -1 ->
  handle_ir (Some (mkIR false c)) s = s.
Proof.
  intros H. unfold handle_ir. cbn [is_repeat command]. rewrite H. reflexivity.
Qed.

(** The levels, the flag and the speed after a pass are those after its
    sampling tick, if it has one, and those after its IR handling otherwise. *)
Lemma loop_levels (i : LoopInput) (s : State) :
  let s1 := handle_ir (ir i) s in
  let s2 :=
    if ping_due (now i) s1
    then sample_tick (readUltrasonicCm (echo i)) (set_lastPing (now i) s1)
    else s1 in
  commandedLevel (loop i s) = commandedLevel s2
  /\ effectiveLevel (loop i s) = effectiveLevel s2
  /\ reducing (loop i s) = reducing s2
  /\ stepperRpm (loop i s) = stepperRpm s2
  /\ distanceCm (loop i s) = distanceCm s2
  /\ ledState (loop i s) = ledState s2.
Proof.
  intros s1 s2. unfold loop. fold s1. fold s2.
  destruct (lcd_due (now i) s2); simpl;
    match goal with |- context [if ?c then _ else _] => destruct c end;
    simpl; tauto.
Qed.

(** C10: an accepted command code sets the commanded level and leaves the
    effective level, the reducing flag and the speed set on the stepper as
    they were; so does the whole pass that receives it when no sampling tick
    is due in that pass. *)
Theorem command_updates_commanded_level_only (s : State) (c t e : Z) :
  0 <= levelFromIrCommand (uint8 c) <= 9 ->
  let s' := handle_ir (Some (mkIR false c)) s in
  commandedLevel s' = levelFromIrCommand (uint8 c)
  /\ effectiveLevel s' = effectiveLevel s
  /\ reducing s' = reducing s
  /\ stepperRpm s' = stepperRpm s
  /\ (ping_due t s' = false ->
      let s2 := loop (mkInput (Some (mkIR false c)) t e) s in
      commandedLevel s2 = levelFromIrCommand (uint8 c)
      /\ effectiveLevel s2 = effectiveLevel s
      /\ reducing s2 = reducing s
      /\ stepperRpm s2 = stepperRpm s).
Proof.
  intros H s'.
  pose proof (handle_ir_accept c s H) as Hc.
  destruct (handle_ir_frame (Some (mkIR false c)) s) as (He & Hr & Hs & _).
  fold s' in Hc, He, Hr, Hs.
  repeat (split; [assumption|]).
  intros Hdue s2.
  pose proof (loop_levels (mkInput (Some (mkIR false c)) t e) s) as HL.
  cbv zeta in HL. cbn [ir now echo] in HL. fold s' in HL. fold s2 in HL.
  rewrite Hdue in HL.
  destruct HL as (E1 & E2 & E3 & E4 & _).
  rewrite E1, E2, E3, E4. auto.
Qed.

Lemma command_updates_commanded_level_only_witness :
  let s' := handle_ir (Some (mkIR false 0x4A)) s_level5_blocked in
  let s2 := loop (press 0x4A 100 30) s_level5_blocked in
  (commandedLevel s' = 9 /\ effectiveLevel s' = 0 /\ reducing s' = true)
  /\ (commandedLevel s2 = 9 /\ effectiveLevel s2 = 0 /\ reducing s2 = true).
Proof.
  intros s' s2.
  destruct (command_updates_commanded_level_only s_level5_blocked 0x4A 100 (30 * 58))
    as (Hc & He & Hr & _ & Hpass).
  - vm_compute. split; discriminate.
  - destruct Hpass as (Hc2 & He2 & Hr2 & _).
    + vm_compute. reflexivity.
    + destruct s_level5_blocked_levels as (_ & He0 & Hr0).
      fold s' in Hc, He, Hr. fold (press 0x4A 100 30) in Hc2, He2, Hr2.
      fold s2 in Hc2, He2, Hr2.
      rewrite Hc, He, Hr, Hc2, He2, Hr2, He0, Hr0.
      repeat split; reflexivity.
Defined.

(** ** The status display *)

Lemma lcd_print_padded_width (txt : list ascii) :
  (List.length txt <= 16)%nat -> List.length (lcd_print_padded txt) = 16%nat.
Proof.
  intros H. unfold lcd_print_padded, spaces.
  rewrite length_app, repeat_length. lia.
Qed.

(** The first row is 16 characters wide in every state. *)
Lemma lcd_row0_width (s : State) : List.length (lcdRow0 (updateLcd s)) = 16%nat.
Proof.
  change (lcdRow0 (updateLcd s)) with (lcd_row0 s).
  unfold lcd_row0. apply lcd_print_padded_width.
  unfold lcd_line1, snprintf. apply firstn_le_length.
Qed.

(** The second row is 17 characters wide with the obstacle message and 15
    with the normal one. *)
Lemma lcd_row1_width (s : State) :
  List.length (lcdRow1 (updateLcd s)) =
    if (distanceCm s >=? 0) && (distanceCm s <? 20) then 17%nat else 15%nat.
Proof.
  change (lcdRow1 (updateLcd s)) with (lcd_row1 s). unfold lcd_row1.
  destruct ((distanceCm s >=? 0) && (distanceCm s <? 20)); reflexivity.
Qed.

(** C7, at a first refresh 100 ms after [setup]: the first row is 16
    characters wide, but the second row is 15 characters wide when the ping
    timed out and 17 when the obstacle is at 10 cm. *)
Theorem lcd_second_row_width :
  let quiet := run [mkInput None 100 0] init in
  let near := run [idle 100 10] init in
  (distanceCm quiet = -1
   /\ List.length (lcdRow0 quiet) = 16%nat
   /\ lcdRow1 quiet = chars "MODE: NORMAL   "
   /\ List.length (lcdRow1 quiet) = 15%nat)
  /\ (distanceCm near = 10
      /\ List.length (lcdRow0 near) = 16%nat
      /\ lcdRow1 near = chars "Obstacle Detected"
      /\ List.length (lcdRow1 near) = 17%nat).
Proof. vm_compute. repeat split; reflexivity. Qed.

(** ** The level invariant *)

Lemma level_ok_init : level_ok init.
Proof. vm_compute. split; [discriminate | reflexivity]. Qed.

Lemma sample_tick_level_ok_outside (d : Z) (s : State) :
  0 <= commandedLevel s <= 9 ->
  in_band d s = false ->
  level_ok (sample_tick d s).
Proof.
  intros HL Hb. unfold level_ok. rewrite sample_tick_commandedLevel.
  unfold in_band in Hb. apply andb_false_iff in Hb.
  destruct (Z.lt_ge_cases d 0) as [Hneg | Hnn].
  - destruct (sample_tick_no_echo d s Hneg) as (-> & -> & _).
    rewrite constrain_id by lia. rewrite Z.ltb_irrefl. split; [lia | reflexivity].
  - destruct (Z.lt_ge_cases d (computeSafeCm (commandedLevel s))) as [Hlow | Hhigh].
    + destruct (sample_tick_reduce d s (conj Hnn Hlow)) as (-> & -> & _).
      destruct (Z.eqb_spec (commandedLevel s) 0) as [E0 | Hne].
      * rewrite E0. split; [vm_compute; discriminate | reflexivity].
      * destruct (map_reduction d (commandedLevel s)) as (_ & Hm); [lia | exact Hlow |].
        rewrite constrain_id by lia. split; [lia | reflexivity].
    + assert (Hab : computeSafeCm (commandedLevel s) + HYSTERESIS_CM < d).
      { destruct Hb as [Hb | Hb].
        - apply Z.leb_gt in Hb. lia.
        - apply Z.leb_gt in Hb. exact Hb. }
      destruct (sample_tick_clear d s Hab) as (-> & -> & _).
      rewrite constrain_id by lia. rewrite Z.ltb_irrefl. split; [lia | reflexivity].
Qed.

Lemma sample_tick_level_ok (d : Z) (s : State) :
  0 <= commandedLevel s <= 9 ->
  level_ok s ->
  level_ok (sample_tick d s).
Proof.
  intros HL Hok.
  destruct (in_band d s) eqn:Hb.
  - unfold in_band in Hb. apply andb_true_iff in Hb. destruct Hb as (H1 & H2).
    apply Z.leb_le in H1, H2.
    destruct (sample_tick_band d s (conj H1 H2)) as (He & Hr & _).
    unfold level_ok. rewrite sample_tick_commandedLevel, He, Hr. exact Hok.
  - apply sample_tick_level_ok_outside; assumption.
Qed.

Lemma loop_commandedLevel_range (i : LoopInput) (s : State) :
  0 <= commandedLevel s <= 9 -> 0 <= commandedLevel (loop i s) <= 9.
Proof.
  intros H. destruct (loop_levels i s) as (-> & _).
  pose proof (handle_ir_range (ir i) s H) as H1.
  destruct (ping_due (now i) (handle_ir (ir i) s)); [|exact H1].
  rewrite sample_tick_commandedLevel. exact H1.
Qed.

(** One pass keeps the levels settled, or settles them. *)
Lemma loop_level_ok (i : LoopInput) (s : State) (g : bool) :
  0 <= commandedLevel s <= 9 ->
  (g = true -> level_ok s) ->
  settled_after i s g = true ->
  level_ok (loop i s).
Proof.
  intros HL Hok Hs.
  destruct (loop_levels i s) as (Ec & Ee & Er & _).
  unfold level_ok. rewrite Ec, Ee, Er. clear Ec Ee Er.
  unfold settled_after in Hs.
  pose proof (handle_ir_range (ir i) s HL) as H1.
  destruct (handle_ir_frame (ir i) s) as (Fe & Fr & _).
  set (s1 := handle_ir (ir i) s) in *.
  assert (Hkeep : g && (commandedLevel s1 =? commandedLevel s) = true -> level_ok s1).
  { intros Hg. apply andb_true_iff in Hg. destruct Hg as (Hg & Hc).
    apply Z.eqb_eq in Hc. unfold level_ok. rewrite Fe, Fr, Hc. apply Hok, Hg. }
  destruct (ping_due (now i) s1).
  - apply orb_true_iff in Hs. destruct Hs as [Hs | Hs].
    + apply sample_tick_level_ok; [exact H1 | apply (Hkeep Hs)].
    + apply sample_tick_level_ok_outside; [exact H1|].
      apply negb_true_iff in Hs. exact Hs.
  - apply (Hkeep Hs).
Qed.

Lemma run_level_ok (ins : list LoopInput) :
  forall (s : State) (g : bool),
    0 <= commandedLevel s <= 9 ->
    (g = true -> level_ok s) ->
    settled ins s g = true ->
    level_ok (run ins s).
Proof.
  induction ins as [|i rest IH]; intros s g HL Hok Hs; simpl in *.
  - apply Hok, Hs.
  - apply (IH (loop i s) (settled_after i s g)).
    + apply loop_commandedLevel_range, HL.
    + intros Hg. apply (loop_level_ok i s g HL Hok Hg).
    + exact Hs.
Qed.

(** The levels of every reachable state are in 0..9. *)
Lemma reachable_levels_range (ins : list LoopInput) :
  0 <= commandedLevel (run ins init) <= 9
  /\ 0 <= effectiveLevel (run ins init) <= 9.
Proof.
  assert (G : forall s, 0 <= commandedLevel s <= 9 /\ 0 <= effectiveLevel s <= 9 ->
              0 <= commandedLevel (run ins s) <= 9 /\ 0 <= effectiveLevel (run ins s) <= 9).
  { induction ins as [|i rest IH]; intros s (Hc & He); simpl; [tauto|].
    apply IH. split; [apply loop_commandedLevel_range, Hc|].
    destruct (loop_levels i s) as (_ & -> & _).
    destruct (handle_ir_frame (ir i) s) as (Fe & _).
    destruct (ping_due (now i) (handle_ir (ir i) s)); [|rewrite Fe; exact He].
    unfold sample_tick.
    destruct (led_control_frame
                (regulate (set_distanceCm (readUltrasonicCm (echo i))
                             (set_lastPing (now i) (handle_ir (ir i) s)))))
      as (_ & -> & _).
    unfold regulate.
    repeat match goal with |- context [if ?c then _ else _] => destruct c end;
      simpl; try apply constrain_range; try lia. }
  apply G. vm_compute. repeat split; discriminate.
Qed.

(** Where the level invariant does hold: in every state the loop reaches
    while the levels are settled (no command has changed the commanded level
    since the last sampling tick that decided outside the hysteresis band, or
    since [setup]), the effective level is at most the commanded level, the
    reducing flag is set exactly when it is below, and so the two levels are
    equal when the flag is clear. *)
Theorem settled_levels_ok (ins : list LoopInput) :
  settled ins init true = true ->
  let s := run ins init in
  effectiveLevel s <= commandedLevel s
  /\ (reducing s = true <-> effectiveLevel s < commandedLevel s)
  /\ (reducing s = false -> effectiveLevel s = commandedLevel s).
Proof.
  intros Hs s.
  assert (Hok : level_ok s).
  { apply (run_level_ok ins init true); [vm_compute; split; discriminate | | exact Hs].
    intros _. apply level_ok_init. }
  destruct Hok as (Hle & Hr). rewrite Hr.
  split; [exact Hle|]. split.
  - apply Z.ltb_lt.
  - intros Hf. apply Z.ltb_ge in Hf. lia.
Qed.

(** A command in the band followed by samples below and above it. *)
Lemma settled_levels_ok_witness :
  let ins := [press 0x4A 60 20; press 0x0C 120 16; idle 180 9; idle 240 40] in
  settled ins init true = true
  /\ effectiveLevel (run ins init) <= commandedLevel (run ins init)
  /\ (reducing (run ins init) = false ->
      effectiveLevel (run ins init) = commandedLevel (run ins init)).
Proof.
  intros ins.
  assert (Hs : settled ins init true = true) by (vm_compute; reflexivity).
  split; [exact Hs|].
  destruct (settled_levels_ok ins Hs) as (Hle & _ & Heq).
  split; [exact Hle | exact Heq].
Defined.

(** The level invariant across a command in the band.  Level 9 is commanded
    with an obstacle at 20 cm, so the level is reduced to 3; then level 1 is commanded and the next sample,
    16 cm, is valid and in the hysteresis band of level 1: the tick keeps the
    effective level 3 and the flag, above the commanded level 1.  With no echo
    at first instead, the flag is clear and the effective level stays 9. *)
Lemma level_invariant_fails_across_command :
  (let s := run [press 0x4A 60 20; press 0x0C 120 16] init in
   0 <= distanceCm s /\ in_band (distanceCm s) s = true
   /\ reducing s = true
   /\ commandedLevel s = 1 /\ effectiveLevel s = 3
   /\ ~ effectiveLevel s <= commandedLevel s)
  /\ (let s := run [mkInput (Some (mkIR false 0x4A)) 60 0; press 0x0C 120 16] init in
      0 <= distanceCm s /\ in_band (distanceCm s) s = true
      /\ reducing s = false
      /\ commandedLevel s = 1 /\ effectiveLevel s = 9
      /\ effectiveLevel s <> commandedLevel s).
Proof.
  vm_compute. repeat split; try reflexivity; try discriminate; intros H; apply H; reflexivity.
Qed.

(** * Further properties of the sketch *)

(** ** IR codes *)

(** The digit codes and [levelFromIrCommand] are inverse to each other: the
    code of a level in 0..9 selects that level, and a code that selects a
    level is the code of that level (so no two codes select the same level,
    and the result is -1 or in 0..9). *)
Theorem ir_codes_round_trip (c lvl : Z) :
  (0 <= lvl <= 9 ->
   levelFromIrCommand (nth (Z.to_nat lvl) digit_codes (-1)) = lvl)
  /\ (levelFromIrCommand c <> -1 ->
      0 <= levelFromIrCommand c <= 9
      /\ nth (Z.to_nat (levelFromIrCommand c)) digit_codes (-1) = c).
Proof.
  split.
  - intros H.
    assert (E : lvl = 0 \/ 1 <= lvl <= 9) by lia.
    destruct E as [E | E]; [subst; reflexivity|].
    destruct (level_cases lvl E) as [E1|[E1|[E1|[E1|[E1|[E1|[E1|[E1|E1]]]]]]]];
      subst lvl; reflexivity.
  - unfold levelFromIrCommand.
    repeat match goal with
      | |- context [c =? ?k] =>
          destruct (Z.eqb_spec c k) as [-> | ?];
          [intros _; split; [split; discriminate | reflexivity] |]
      end.
    intros H. exfalso. apply H. reflexivity.
Qed.

Lemma ir_codes_round_trip_witness :
  levelFromIrCommand (nth (Z.to_nat 7) digit_codes (-1)) = 7
  /\ nth (Z.to_nat (levelFromIrCommand 0x5E)) digit_codes (-1) = 0x5E.
Proof.
  split.
  - destruct (ir_codes_round_trip 0 7) as (Hcode & _). apply Hcode. lia.
  - destruct (ir_codes_round_trip 0x5E 0) as (_ & Hlvl).
    apply Hlvl. vm_compute. discriminate.
Defined.

Lemma levelFromIrCommand_unknown (c : Z) :
  existsb (Z.eqb c) digit_codes = false -> levelFromIrCommand c = -1.
Proof.
  intros H. unfold levelFromIrCommand. cbn [existsb digit_codes] in H.
  repeat (apply orb_false_iff in H; destruct H as (H0 & H);
          rewrite H0; clear H0).
  reflexivity.
Qed.

Lemma handle_ir_ignored (i : option IRData) (s : State) :
  ignored i = true -> handle_ir i s = s.
Proof.
  unfold ignored, handle_ir. destruct i as [d|]; [|reflexivity].
  destruct (is_repeat d); [reflexivity|]. simpl orb. intros H.
  apply negb_true_iff in H.
  rewrite (levelFromIrCommand_unknown _ H). reflexivity.
Qed.


(** ** The distance sample *)

(** For a pulse of positive width the sample is the width divided by 58,
    raised to [MIN_CM] if below; it is never the no-echo value, it does not
    decrease when the pulse gets longer, and a pulse within the echo timeout
    gives at most 431 cm. *)
Theorem readUltrasonicCm_echo (d1 d2 : Z) :
  0 < d1 <= d2 ->
  readUltrasonicCm d1 = Z.max MIN_CM (d1 / 58)
  /\ MIN_CM <= readUltrasonicCm d1
  /\ readUltrasonicCm d1 <= readUltrasonicCm d2
  /\ (d2 <= ECHO_TIMEOUT_US -> readUltrasonicCm d2 <= 431).
Proof.
  intros H.
  assert (E : forall d, 0 < d -> readUltrasonicCm d = Z.max MIN_CM (d / 58)).
  { intros d Hd. unfold readUltrasonicCm, MIN_CM. zcases; lia. }
  rewrite !E by lia. unfold MIN_CM, ECHO_TIMEOUT_US.
  split; [reflexivity|]. split; [lia|]. split.
  - pose proof (Z.div_le_mono d1 d2 58). lia.
  - intros Ht. pose proof (Z.div_le_mono d2 25000 58).
    change (25000 / 58) with 431 in *. lia.
Qed.

Lemma readUltrasonicCm_echo_witness :
  readUltrasonicCm 100 = Z.max MIN_CM (100 / 58)
  /\ MIN_CM <= readUltrasonicCm 100
  /\ readUltrasonicCm 100 <= readUltrasonicCm 25000
  /\ readUltrasonicCm 25000 <= 431.
Proof.
  destruct (readUltrasonicCm_echo 100 25000) as (Hv & Hlo & Hmono & Hmax); [lia|].
  split; [exact Hv|]. split; [exact Hlo|]. split; [exact Hmono|].
  apply Hmax. unfold ECHO_TIMEOUT_US. lia.
Defined.

(** ** The two cadences *)

(** The gates count elapsed milliseconds correctly across the wrap-around of
    [millis()]: [k] milliseconds after the last ping (refresh), with the clock
    taken modulo 2^32, a ping (refresh) is due exactly when [k] has reached
    the interval. *)
Theorem gates_survive_clock_wrap (s : State) (k : Z) :
  0 <= k < 2 ^ 32 ->
  ping_due ((lastPing s + k) mod 2 ^ 32) s = (PING_INTERVAL_MS <=? k)
  /\ lcd_due ((lastLcd s + k) mod 2 ^ 32) s = (LCD_REFRESH_MS <=? k).
Proof.
  intros H.
  assert (E : forall t, ulong_sub ((t + k) mod 2 ^ 32) t = k).
  { intros t. unfold ulong_sub. rewrite Zminus_mod_idemp_l.
    replace (t + k - t) with k by lia. apply Z.mod_small. exact H. }
  unfold ping_due, lcd_due. rewrite !E, !Z.geb_leb. auto.
Qed.

Lemma gates_survive_clock_wrap_witness :
  ping_due ((lastPing (set_lastPing 4294967290 init) + 59) mod 2 ^ 32)
    (set_lastPing 4294967290 init) = false
  /\ ping_due ((lastPing (set_lastPing 4294967290 init) + 60) mod 2 ^ 32)
       (set_lastPing 4294967290 init) = true.
Proof.
  split.
  - destruct (gates_survive_clock_wrap (set_lastPing 4294967290 init) 59) as (-> & _).
    + lia.
    + reflexivity.
  - destruct (gates_survive_clock_wrap (set_lastPing 4294967290 init) 60) as (-> & _).
    + lia.
    + reflexivity.
Defined.

(** ** More on the regulation decision *)

(** The effective level of a tick in the reduction branch, for any commanded
    level in 0..9. *)
Lemma sample_tick_reduce_value (d : Z) (s : State) :
  0 <= commandedLevel s <= 9 ->
  0 <= d < computeSafeCm (commandedLevel s) ->
  effectiveLevel (sample_tick d s)
  = commandedLevel s * (Z.max d MIN_CM - MIN_CM)
    / (computeSafeCm (commandedLevel s) - MIN_CM).
Proof.
  intros HL Hd.
  destruct (sample_tick_reduce d s Hd) as (-> & _).
  destruct (Z.eqb_spec (commandedLevel s) 0) as [E0 | Hne].
  - rewrite E0. reflexivity.
  - destruct (map_reduction d (commandedLevel s)) as (Hm & Hb); [lia | apply Hd |].
    rewrite constrain_id by lia. exact Hm.
Qed.

(** With any commanded level in 0..9, a valid sample of at most 7 cm stops
    the motor: the effective level and the speed become 0, and the flag is
    set when the commanded level is not 0. *)
Theorem obstacle_within_7cm_stops (s : State) (d : Z) :
  0 <= commandedLevel s <= 9 ->
  0 <= d <= 7 ->
  effectiveLevel (sample_tick d s) = 0
  /\ stepperRpm (sample_tick d s) = 0
  /\ reducing (sample_tick d s) = (0 <? commandedLevel s).
Proof.
  intros HL Hd.
  pose proof (computeSafeCm_lower (commandedLevel s)) as Hlo.
  unfold BASE_SAFE_CM in Hlo.
  assert (Hlt : 0 <= d < computeSafeCm (commandedLevel s)) by lia.
  destruct (sample_tick_reduce d s Hlt) as (He & Hr & Hs).
  assert (E : (if commandedLevel s =? 0 then 0
               else map (constrain d MIN_CM (computeSafeCm (commandedLevel s)))
                      MIN_CM (computeSafeCm (commandedLevel s)) 0 (commandedLevel s))
              = 0).
  { destruct (Z.eqb_spec (commandedLevel s) 0) as [E0 | Hne]; [reflexivity|].
    destruct (map_reduction d (commandedLevel s)) as (Hm & _); [lia | apply Hlt |].
    rewrite Hm. apply Z.div_small.
    unfold computeSafeCm, BASE_SAFE_CM, CM_PER_LEVEL, MIN_CM. zcases; nia. }
  rewrite E in He, Hr, Hs.
  rewrite He, Hr, Hs. repeat split; reflexivity.
Qed.

Lemma obstacle_within_7cm_stops_witness :
  effectiveLevel (sample_tick 7 s_level5_clear) = 0
  /\ stepperRpm (sample_tick 7 s_level5_clear) = 0
  /\ reducing (sample_tick 7 s_level5_clear) = (0 <? commandedLevel s_level5_clear).
Proof.
  apply (obstacle_within_7cm_stops s_level5_clear 7).
  - destruct s_level5_clear_levels as (-> & _). lia.
  - lia.
Defined.

(** Below the safe distance the level is always reduced: with a commanded
    level in 1..9 the effective level is below it and the flag is set; right
    below the safe distance it is the commanded level minus one. *)
Theorem reduction_is_strict (s : State) (d : Z) :
  0 < commandedLevel s <= 9 ->
  0 <= d < computeSafeCm (commandedLevel s) ->
  0 <= effectiveLevel (sample_tick d s) < commandedLevel s
  /\ reducing (sample_tick d s) = true
  /\ (d = computeSafeCm (commandedLevel s) - 1 ->
      effectiveLevel (sample_tick d s) = commandedLevel s - 1).
Proof.
  intros HL Hd.
  destruct (sample_tick_reduce d s Hd) as (He & Hr & _).
  destruct (Z.eqb_spec (commandedLevel s) 0) as [E0 | _]; [lia|].
  destruct (map_reduction d (commandedLevel s)) as (Hm & Hb); [lia | apply Hd |].
  rewrite constrain_id in He by lia.
  rewrite He, Hr. split; [exact Hb|]. split; [apply Z.ltb_lt, Hb|].
  intros E. rewrite Hm.
  rewrite computeSafeCm_pos in * by lia.
  unfold BASE_SAFE_CM, CM_PER_LEVEL, MIN_CM in *.
  symmetry. apply (Z.div_unique _ _ _ (4 * commandedLevel s + 8)); nia.
Qed.

Lemma reduction_is_strict_witness :
  0 <= effectiveLevel (sample_tick 34 s_level5_clear) < commandedLevel s_level5_clear
  /\ reducing (sample_tick 34 s_level5_clear) = true
  /\ effectiveLevel (sample_tick 34 s_level5_clear) = commandedLevel s_level5_clear - 1.
Proof.
  assert (Hc : commandedLevel s_level5_clear = 5) by apply s_level5_clear_levels.
  destruct (reduction_is_strict s_level5_clear 34) as (Hlt & Hr & Hedge).
  - rewrite Hc. lia.
  - rewrite Hc. vm_compute. split; [discriminate | reflexivity].
  - split; [exact Hlt|]. split; [exact Hr|].
    apply Hedge. rewrite Hc. reflexivity.
Defined.

(** Outside the hysteresis band a nearer obstacle never gives a higher level:
    for valid samples [d1 <= d2], both outside the band of a commanded level
    in 0..9, the effective level after [d1] is at most the one after [d2]. *)
Theorem nearer_obstacle_never_faster (s : State) (d1 d2 : Z) :
  0 <= commandedLevel s <= 9 ->
  0 <= d1 <= d2 ->
  in_band d1 s = false -> in_band d2 s = false ->
  effectiveLevel (sample_tick d1 s) <= effectiveLevel (sample_tick d2 s).
Proof.
  intros HL Hd B1 B2.
  assert (Hout : forall d, in_band d s = false ->
            d < computeSafeCm (commandedLevel s)
            \/ computeSafeCm (commandedLevel s) + HYSTERESIS_CM < d).
  { intros d B. unfold in_band in B. apply andb_false_iff in B.
    destruct B as [B | B]; apply Z.leb_gt in B; auto. }
  pose proof (computeSafeCm_lower (commandedLevel s)) as Hlo.
  unfold BASE_SAFE_CM, HYSTERESIS_CM in *.
  assert (Hfull : forall d, computeSafeCm (commandedLevel s) + 3 < d ->
            effectiveLevel (sample_tick d s) = commandedLevel s).
  { intros d H. destruct (sample_tick_clear d s H) as (-> & _).
    apply constrain_id. lia. }
  assert (Hred : forall d, 0 <= d < computeSafeCm (commandedLevel s) ->
            effectiveLevel (sample_tick d s) <= commandedLevel s).
  { intros d H. rewrite (sample_tick_reduce_value d s HL H).
    apply Z.div_le_upper_bound; unfold MIN_CM; nia. }
  destruct (Hout d1 B1) as [L1 | L1], (Hout d2 B2) as [L2 | L2].
  - rewrite !sample_tick_reduce_value by lia.
    apply Z.div_le_mono; [unfold MIN_CM; lia|].
    apply Z.mul_le_mono_nonneg_l; lia.
  - rewrite (Hfull d2 L2). apply Hred. lia.
  - lia.
  - rewrite (Hfull d1 L1), (Hfull d2 L2). lia.
Qed.

Lemma nearer_obstacle_never_faster_witness :
  effectiveLevel (sample_tick 12 s_level5_clear)
  <= effectiveLevel (sample_tick 30 s_level5_clear)
  /\ effectiveLevel (sample_tick 30 s_level5_clear)
     <= effectiveLevel (sample_tick 60 s_level5_clear).
Proof.
  assert (HL : 0 <= commandedLevel s_level5_clear <= 9).
  { destruct s_level5_clear_levels as (-> & _). lia. }
  split.
  - apply (nearer_obstacle_never_faster s_level5_clear 12 30 HL);
      [lia | vm_compute; reflexivity | vm_compute; reflexivity].
  - apply (nearer_obstacle_never_faster s_level5_clear 30 60 HL);
      [lia | vm_compute; reflexivity | vm_compute; reflexivity].
Defined.

Lemma sample_tick_memoryless (s1 s2 : State) (d : Z) :
  commandedLevel s1 = commandedLevel s2 ->
  in_band d s1 = false ->
  effectiveLevel (sample_tick d s1) = effectiveLevel (sample_tick d s2)
  /\ reducing (sample_tick d s1) = reducing (sample_tick d s2)
  /\ stepperRpm (sample_tick d s1) = stepperRpm (sample_tick d s2).
Proof.
  intros Hc B. unfold in_band in B. rewrite Hc in B.
  apply andb_false_iff in B.
  destruct (Z.lt_ge_cases d 0) as [Hneg | Hnn].
  - destruct (sample_tick_no_echo d s1 Hneg) as (-> & -> & ->).
    destruct (sample_tick_no_echo d s2 Hneg) as (-> & -> & ->).
    rewrite Hc. auto.
  - destruct (Z.lt_ge_cases d (computeSafeCm (commandedLevel s2))) as [Hlow | Hhigh].
    + destruct (sample_tick_reduce d s2 (conj Hnn Hlow)) as (-> & -> & ->).
      rewrite <- Hc in Hlow.
      destruct (sample_tick_reduce d s1 (conj Hnn Hlow)) as (-> & -> & ->).
      rewrite Hc. auto.
    + assert (Hab : computeSafeCm (commandedLevel s2) + HYSTERESIS_CM < d).
      { destruct B as [B | B]; apply Z.leb_gt in B; [lia | exact B]. }
      destruct (sample_tick_clear d s2 Hab) as (-> & -> & ->).
      rewrite <- Hc in Hab.
      destruct (sample_tick_clear d s1 Hab) as (-> & -> & ->).
      rewrite Hc. auto.
Qed.

(** The hysteresis band is the only memory of the regulation: outside it, the
    level, the flag and the speed after a tick depend on the commanded level
    and the sample alone, not on what they were before. *)
Theorem regulation_is_memoryless_outside_band (s1 s2 : State) (d : Z) :
  commandedLevel s1 = commandedLevel s2 ->
  in_band d s1 = false ->
  effectiveLevel (sample_tick d s1) = effectiveLevel (sample_tick d s2)
  /\ reducing (sample_tick d s1) = reducing (sample_tick d s2)
  /\ stepperRpm (sample_tick d s1) = stepperRpm (sample_tick d s2).
Proof. apply sample_tick_memoryless. Qed.

Lemma regulation_is_memoryless_outside_band_witness :
  effectiveLevel (sample_tick 20 s_level5_clear)
  = effectiveLevel (sample_tick 20 s_level5_blocked)
  /\ reducing (sample_tick 20 s_level5_clear)
     = reducing (sample_tick 20 s_level5_blocked)
  /\ stepperRpm (sample_tick 20 s_level5_clear)
     = stepperRpm (sample_tick 20 s_level5_blocked).
Proof.
  apply (regulation_is_memoryless_outside_band s_level5_clear s_level5_blocked 20).
  - vm_compute. reflexivity.
  - vm_compute. reflexivity.
Defined.

(** ** What a tick leaves alone, and repeating a sample *)

Lemma State_ext (a b : State) :
  commandedLevel a = commandedLevel b -> effectiveLevel a = effectiveLevel b ->
  reducing a = reducing b -> lastPing a = lastPing b -> lastLcd a = lastLcd b ->
  distanceCm a = distanceCm b -> ledState a = ledState b ->
  stepperRpm a = stepperRpm b -> stepperSteps a = stepperSteps b ->
  ledPin a = ledPin b -> lcdRow0 a = lcdRow0 b -> lcdRow1 a = lcdRow1 b ->
  serialLog a = serialLog b ->
  a = b.
Proof. destruct a, b. simpl. intros. subst. reflexivity. Qed.

Lemma regulate_frame_devices (s : State) :
  lastPing (regulate s) = lastPing s
  /\ lastLcd (regulate s) = lastLcd s
  /\ stepperSteps (regulate s) = stepperSteps s
  /\ ledPin (regulate s) = ledPin s
  /\ lcdRow0 (regulate s) = lcdRow0 s
  /\ lcdRow1 (regulate s) = lcdRow1 s.
Proof.
  unfold regulate.
  repeat match goal with |- context [if ?c then _ else _] => destruct c end;
    simpl; tauto.
Qed.

Lemma led_control_frame_devices (s : State) :
  lastPing (led_control s) = lastPing s
  /\ lastLcd (led_control s) = lastLcd s
  /\ stepperSteps (led_control s) = stepperSteps s
  /\ lcdRow0 (led_control s) = lcdRow0 s
  /\ lcdRow1 (led_control s) = lcdRow1 s.
Proof.
  unfold led_control.
  destruct (distanceCm s >=? 0); [|simpl; tauto].
  destruct (negb (ledState s) && (distanceCm s <? LED_ON_CM)); simpl;
    match goal with |- context [if ?c then _ else _] => destruct c end;
    simpl; tauto.
Qed.

(** A tick stores the sample and touches neither the clocks, nor the step
    count, nor the display, nor the serial port. *)
Lemma sample_tick_frame (d : Z) (s : State) :
  distanceCm (sample_tick d s) = d
  /\ lastPing (sample_tick d s) = lastPing s
  /\ lastLcd (sample_tick d s) = lastLcd s
  /\ stepperSteps (sample_tick d s) = stepperSteps s
  /\ lcdRow0 (sample_tick d s) = lcdRow0 s
  /\ lcdRow1 (sample_tick d s) = lcdRow1 s
  /\ serialLog (sample_tick d s) = serialLog s.
Proof.
  unfold sample_tick.
  destruct (led_control_frame (regulate (set_distanceCm d s)))
    as (_ & _ & _ & _ & -> & ->).
  destruct (led_control_frame_devices (regulate (set_distanceCm d s)))
    as (-> & -> & -> & -> & ->).
  destruct (regulate_frame (set_distanceCm d s)) as (_ & -> & _ & ->).
  destruct (regulate_frame_devices (set_distanceCm d s))
    as (-> & -> & -> & _ & -> & ->).
  simpl. tauto.
Qed.

(** Repeating a sample changes nothing: a second tick with the same sample
    leaves the whole state as the first tick left it, in the band and out. *)
Theorem repeated_sample_is_stable (d : Z) (s : State) :
  sample_tick d (sample_tick d s) = sample_tick d s.
Proof.
  set (t := sample_tick d s).
  assert (Hc : commandedLevel t = commandedLevel s) by apply sample_tick_commandedLevel.
  assert (Hlev : effectiveLevel (sample_tick d t) = effectiveLevel t
                 /\ reducing (sample_tick d t) = reducing t
                 /\ stepperRpm (sample_tick d t) = stepperRpm t).
  { destruct (in_band d t) eqn:B.
    - unfold in_band in B. apply andb_true_iff in B. destruct B as (B1 & B2).
      apply Z.leb_le in B1, B2. apply sample_tick_band. split; assumption.
    - apply (sample_tick_memoryless t s d Hc B). }
  destruct Hlev as (He & Hr & Hs).
  destruct (sample_tick_frame d t) as (Fd & Fp & Fl & Fn & F0 & F1 & Fs).
  destruct (sample_tick_frame d s) as (Gd & _).
  destruct (led_step d t) as (Lt & Lp).
  destruct (led_step d s) as (Ls & Lq). fold t in Ls, Lq, Gd.
  apply State_ext; try assumption.
  - apply sample_tick_commandedLevel.
  - rewrite Fd, Gd. reflexivity.
  - rewrite Lt, Ls.
    destruct (d <? 0), (d <? LED_ON_CM), (LED_OFF_CM <? d); reflexivity.
  - rewrite Lp, Lq, Lt, Ls.
    destruct (d <? 0), (d <? LED_ON_CM), (LED_OFF_CM <? d); reflexivity.
Qed.

(** ** Rates *)

Lemma levelToRpm_bounds (lvl : Z) :
  1 <= lvl <= 9 -> (6 <= levelToRpm lvl)%Q /\ (levelToRpm lvl <= 15)%Q.
Proof.
  intros H.
  destruct (level_cases lvl H) as [E|[E|[E|[E|[E|[E|[E|[E|E]]]]]]]];
    subst lvl; vm_compute; split; discriminate.
Qed.

Lemma levelToRpm_stopped (lvl : Z) : lvl <= 0 -> levelToRpm lvl = 0%Q.
Proof.
  intros H. unfold levelToRpm. destruct (Z.leb_spec lvl 0); [reflexivity | lia].
Qed.

(** The rate does not decrease with the level: for levels [a <= b <= 9] the
    rate of [a] is at most the rate of [b], which is at most [RPM_L9]; a level
    of at least 1 has at least the rate [RPM_L1]. *)
Theorem level_rate_is_monotone (a b : Z) :
  a <= b <= 9 ->
  (levelToRpm a <= levelToRpm b)%Q
  /\ (levelToRpm b <= RPM_L9)%Q
  /\ (1 <= a -> (RPM_L1 <= levelToRpm a)%Q).
Proof.
  intros H.
  assert (Hb : (levelToRpm b <= 15)%Q).
  { destruct (Z.le_gt_cases b 0) as [Hb0 | Hb1].
    - rewrite (levelToRpm_stopped b Hb0). vm_compute. discriminate.
    - apply levelToRpm_bounds. lia. }
  split; [|split; [exact Hb|]].
  - destruct (Z.le_gt_cases a 0) as [Ha0 | Ha1].
    + rewrite (levelToRpm_stopped a Ha0).
      destruct (Z.le_gt_cases b 0) as [Hb0 | Hb1].
      * rewrite (levelToRpm_stopped b Hb0). apply Qle_refl.
      * apply Qle_trans with 6%Q; [vm_compute; discriminate|].
        apply levelToRpm_bounds. lia.
    + assert (Ha : 1 <= a <= 9) by lia. assert (Hb' : 1 <= b <= 9) by lia.
      destruct (level_cases a Ha) as [E|[E|[E|[E|[E|[E|[E|[E|E]]]]]]]];
        destruct (level_cases b Hb') as [F|[F|[F|[F|[F|[F|[F|[F|F]]]]]]]];
        subst a b; try lia; vm_compute; discriminate.
  - intros Ha. apply levelToRpm_bounds. lia.
Qed.

Lemma level_rate_is_monotone_witness :
  (levelToRpm 2 <= levelToRpm 7)%Q
  /\ (levelToRpm 7 <= RPM_L9)%Q
  /\ (RPM_L1 <= levelToRpm 2)%Q.
Proof.
  destruct (level_rate_is_monotone 2 7) as (Hm & Hu & Hl); [lia|].
  split; [exact Hm|]. split; [exact Hu|]. apply Hl. lia.
Defined.

(** ** Outputs follow the variables *)

Lemma sample_tick_consistent (d : Z) (s : State) :
  consistent s -> consistent (sample_tick d s).
Proof.
  intros (Hc & He & Hs & Hp). unfold consistent.
  rewrite sample_tick_commandedLevel.
  destruct (led_step d s) as (_ & Hpin).
  split; [exact Hc|]. refine ((fun H => conj (proj1 H) (conj (proj2 H) Hpin)) _).
  pose proof (computeSafeCm_lower (commandedLevel s)) as Hlo.
  unfold BASE_SAFE_CM in Hlo.
  destruct (Z.lt_ge_cases d 0) as [Hneg | Hnn].
  - destruct (sample_tick_no_echo d s Hneg) as (-> & _ & ->).
    split; [apply constrain_range; lia | reflexivity].
  - destruct (Z.lt_ge_cases d (computeSafeCm (commandedLevel s))) as [Hlow | Hhigh].
    + destruct (sample_tick_reduce d s (conj Hnn Hlow)) as (-> & _ & ->).
      split; [apply constrain_range; lia | reflexivity].
    + destruct (Z.le_gt_cases d (computeSafeCm (commandedLevel s) + HYSTERESIS_CM))
        as [Hin | Hout].
      * destruct (sample_tick_band d s (conj Hhigh Hin)) as (-> & _ & ->).
        split; assumption.
      * destruct (sample_tick_clear d s Hout) as (-> & _ & ->).
        split; [apply constrain_range; lia | reflexivity].
Qed.

Lemma loop_ledPin (i : LoopInput) (s : State) :
  let s1 := handle_ir (ir i) s in
  let s2 :=
    if ping_due (now i) s1
    then sample_tick (readUltrasonicCm (echo i)) (set_lastPing (now i) s1)
    else s1 in
  ledPin (loop i s) = ledPin s2 /\ ledPin s1 = ledPin s.
Proof.
  intros s1 s2. split.
  - unfold loop. fold s1. fold s2.
    destruct (lcd_due (now i) s2); simpl;
      match goal with |- context [if ?c then _ else _] => destruct c end;
      reflexivity.
  - unfold s1, handle_ir. destruct (ir i) as [d|]; [|reflexivity].
    destruct (is_repeat d); [reflexivity|].
    match goal with |- context [if ?c then _ else _] => destruct c end; reflexivity.
Qed.

Lemma loop_consistent (i : LoopInput) (s : State) :
  consistent s -> consistent (loop i s).
Proof.
  intros H.
  destruct (loop_levels i s) as (Ec & Ee & _ & Es & _ & El).
  destruct (loop_ledPin i s) as (Ep & Ep1).
  unfold consistent. rewrite Ec, Ee, Es, El, Ep. clear Ec Ee Es El Ep.
  assert (H1 : consistent (handle_ir (ir i) s)).
  { destruct H as (Hc & He & Hs & Hp).
    destruct (handle_ir_frame (ir i) s) as (Fe & _ & Fs & _ & Fl & _).
    unfold consistent. rewrite Fe, Fs, Fl, Ep1.
    split; [apply handle_ir_range, Hc | tauto]. }
  destruct (ping_due (now i) (handle_ir (ir i) s)); [|exact H1].
  apply sample_tick_consistent. exact H1.
Qed.

Lemma run_consistent (ins : list LoopInput) :
  forall s, consistent s -> consistent (run ins s).
Proof.
  induction ins as [|i rest IH]; intros s H; simpl; [exact H|].
  apply IH, loop_consistent, H.
Qed.

Lemma init_consistent : consistent init.
Proof. vm_compute. repeat split; discriminate. Qed.

(** The rates of the levels 1..9 without their fraction. *)
Lemma levelToRpm_to_long (lvl : Z) :
  1 <= lvl <= 9 -> F32.to_long (levelToRpm lvl) = (39 + 9 * lvl) / 8.
Proof.
  intros H.
  destruct (level_cases lvl H) as [E|[E|[E|[E|[E|[E|[E|[E|E]]]]]]]];
    subst lvl; vm_compute; reflexivity.
Qed.

(** In every state the loop reaches, both levels are in 0..9 and the speed
    the stepper received is the rate of the effective level without its
    fraction: 0 when the level is 0, and (39 + 9 * level) / 8 rounded down,
    which is between 6 and 15, when the motor is stepped. *)
Theorem reachable_speed_matches_level (ins : list LoopInput) :
  let s := run ins init in
  0 <= commandedLevel s <= 9
  /\ 0 <= effectiveLevel s <= 9
  /\ stepperRpm s = F32.to_long (levelToRpm (effectiveLevel s))
  /\ (effectiveLevel s = 0 -> stepperRpm s = 0)
  /\ (0 < effectiveLevel s ->
      stepperRpm s = (39 + 9 * effectiveLevel s) / 8
      /\ 6 <= stepperRpm s <= 15).
Proof.
  intros s.
  destruct (run_consistent ins init init_consistent) as (Hc & He & Hs & _).
  fold s in Hc, He, Hs.
  split; [exact Hc|]. split; [exact He|]. split; [exact Hs|]. rewrite Hs. split.
  - intros E. rewrite E. reflexivity.
  - intros Hpos. rewrite levelToRpm_to_long by lia.
    split; [reflexivity|].
    split; [apply Z.div_le_lower_bound | apply Z.div_le_upper_bound]; lia.
Qed.

Lemma reachable_speed_matches_level_witness :
  let s := run [press 0x4A 60 20] init in
  0 < effectiveLevel s
  /\ stepperRpm s = (39 + 9 * effectiveLevel s) / 8
  /\ 6 <= stepperRpm s <= 15.
Proof.
  intros s.
  assert (Hpos : 0 < effectiveLevel s) by (vm_compute; reflexivity).
  split; [exact Hpos|].
  destruct (reachable_speed_matches_level [press 0x4A 60 20]) as (_ & _ & _ & _ & Hrun).
  apply Hrun. exact Hpos.
Defined.

(** In every state the loop reaches, the level written to the LED pin is the
    alert state. *)
Theorem reachable_led_pin_is_alert_state (ins : list LoopInput) :
  ledPin (run ins init) = ledState (run ins init).
Proof.
  apply (run_consistent ins init init_consistent).
Qed.

(** ** Stepping *)

Lemma handle_ir_stepperSteps (i : option IRData) (s : State) :
  stepperSteps (handle_ir i s) = stepperSteps s.
Proof.
  unfold handle_ir. destruct i as [d|]; [|reflexivity].
  destruct (is_repeat d); [reflexivity|].
  match goal with |- context [if ?c then _ else _] => destruct c end; reflexivity.
Qed.

(** A pass steps the motor once if the effective level it ends with is above
    0, and not at all otherwise. *)
Lemma loop_stepperSteps (i : LoopInput) (s : State) :
  stepperSteps (loop i s)
  = stepperSteps s + (if effectiveLevel (loop i s) >? 0 then 1 else 0).
Proof.
  unfold loop.
  set (s1 := handle_ir (ir i) s).
  set (s2 := if ping_due (now i) s1
             then sample_tick (readUltrasonicCm (echo i)) (set_lastPing (now i) s1)
             else s1).
  set (s3 := if lcd_due (now i) s2 then updateLcd (set_lastLcd (now i) s2) else s2).
  assert (E3 : stepperSteps s3 = stepperSteps s).
  { unfold s3. assert (E2 : stepperSteps s2 = stepperSteps s).
    { unfold s2. destruct (ping_due (now i) s1).
      - destruct (sample_tick_frame (readUltrasonicCm (echo i)) (set_lastPing (now i) s1))
          as (_ & _ & _ & -> & _).
        apply handle_ir_stepperSteps.
      - apply handle_ir_stepperSteps. }
    destruct (lcd_due (now i) s2); [simpl|]; exact E2. }
  destruct (effectiveLevel s3 >? 0) eqn:E.
  - change (effectiveLevel (stepper_step s3)) with (effectiveLevel s3).
    rewrite E. simpl. lia.
  - rewrite E. lia.
Qed.

(** Over a run the step count grows by the number of passes that ended with
    an effective level above 0, which is at most the number of passes. *)
Theorem steps_count_running_passes (ins : list LoopInput) (s : State) :
  stepperSteps (run ins s) = stepperSteps s + stepping_passes ins s
  /\ 0 <= stepping_passes ins s <= Z.of_nat (List.length ins).
Proof.
  revert s. induction ins as [|i rest IH]; intros s.
  - simpl. lia.
  - destruct (IH (loop i s)) as (E & B).
    change (run (i :: rest) s) with (run rest (loop i s)).
    cbn [stepping_passes List.length]. rewrite E, loop_stepperSteps.
    destruct (effectiveLevel (loop i s) >? 0); lia.
Qed.

(** As long as every frame is ignored, the motor is never moved: from [setup]
    the commanded and the effective level stay 0, the flag stays clear, the
    speed stays 0 and no step is issued, whatever the samples are. *)
Theorem no_motion_before_first_command (ins : list LoopInput) :
  Forall (fun i => ignored (ir i) = true) ins ->
  let s := run ins init in
  commandedLevel s = 0 /\ effectiveLevel s = 0 /\ reducing s = false
  /\ stepperRpm s = 0 /\ stepperSteps s = 0.
Proof.
  intros Hall.
  assert (G : forall s,
            commandedLevel s = 0 /\ effectiveLevel s = 0 /\ reducing s = false
            /\ stepperRpm s = 0 /\ stepperSteps s = 0 ->
            let s' := run ins s in
            commandedLevel s' = 0 /\ effectiveLevel s' = 0 /\ reducing s' = false
            /\ stepperRpm s' = 0 /\ stepperSteps s' = 0).
  { induction Hall as [|i rest Hi _ IH]; intros s Hs; [exact Hs|].
    change (run (i :: rest) s) with (run rest (loop i s)).
    apply IH. destruct Hs as (Hc & He & Hr & Hv & Hn).
    pose proof (loop_stepperSteps i s) as En.
    destruct (loop_levels i s) as (Ec & Ee & Er & Ev & _).
    rewrite (handle_ir_ignored (ir i) s Hi) in Ec, Ee, Er, Ev.
    assert (T : forall d t,
              commandedLevel t = 0 -> effectiveLevel t = 0 -> reducing t = false ->
              stepperRpm t = 0 ->
              effectiveLevel (sample_tick d t) = 0 /\ reducing (sample_tick d t) = false
              /\ stepperRpm (sample_tick d t) = 0).
    { intros d t Tc Te Tr Tv.
      destruct (Z.lt_ge_cases d 0) as [Hneg | Hnn].
      - destruct (sample_tick_no_echo d t Hneg) as (-> & -> & ->).
        rewrite Tc. repeat split; reflexivity.
      - destruct (Z.lt_ge_cases d (computeSafeCm (commandedLevel t))) as [Hlow | Hhigh].
        + destruct (sample_tick_reduce d t (conj Hnn Hlow)) as (-> & -> & ->).
          rewrite Tc. repeat split; reflexivity.
        + destruct (Z.le_gt_cases d (computeSafeCm (commandedLevel t) + HYSTERESIS_CM))
            as [Hin | Hout].
          * destruct (sample_tick_band d t (conj Hhigh Hin)) as (-> & -> & ->). auto.
          * destruct (sample_tick_clear d t Hout) as (-> & -> & ->).
            rewrite Tc. repeat split; reflexivity. }
    assert (E : commandedLevel (loop i s) = 0 /\ effectiveLevel (loop i s) = 0
                /\ reducing (loop i s) = false /\ stepperRpm (loop i s) = 0).
    { rewrite Ec, Ee, Er, Ev. destruct (ping_due (now i) s).
      - rewrite sample_tick_commandedLevel. split; [exact Hc|].
        apply T; assumption.
      - auto. }
    destruct E as (E1 & E2 & E3 & E4).
    rewrite E2 in En. simpl in En. repeat split; try assumption. lia. }
  intros s. apply G. vm_compute. repeat split; reflexivity.
Qed.

Lemma no_motion_before_first_command_witness :
  let s := run [idle 60 5; mkInput (Some (mkIR true 0x4A)) 120 0;
                mkInput (Some (mkIR false 0x45)) 180 (40 * 58)] init in
  commandedLevel s = 0 /\ effectiveLevel s = 0 /\ reducing s = false
  /\ stepperRpm s = 0 /\ stepperSteps s = 0.
Proof.
  apply (no_motion_before_first_command
           [idle 60 5; mkInput (Some (mkIR true 0x4A)) 120 0;
            mkInput (Some (mkIR false 0x45)) 180 (40 * 58)]).
  repeat constructor.
Defined.

(** ** The alert after a run of samples *)

(** After any run of samples the alert is decided by the last decisive sample
    (valid and outside [LED_ON_CM .. LED_OFF_CM]): on if that sample was below
    [LED_ON_CM], off if it was above [LED_OFF_CM]; without any decisive sample
    the alert is as it was before the run. *)
Theorem alert_follows_last_decisive_sample (ds : list Z) (s : State) :
  ledState (sample_run ds s) =
    match find decisive (rev ds) with
    | Some d => d <? LED_ON_CM
    | None => ledState s
    end.
Proof.
  induction ds as [|d ds IH] using rev_ind; [reflexivity|].
  assert (E : sample_run (ds ++ [d]) s = sample_tick d (sample_run ds s)).
  { unfold sample_run. apply fold_left_app. }
  rewrite E, rev_app_distr. cbn [rev app find].
  destruct (led_step d (sample_run ds s)) as (-> & _).
  rewrite IH. clear IH E.
  destruct (decisive d) eqn:Dd; unfold decisive, LED_ON_CM, LED_OFF_CM in Dd |- *;
    destruct (Z.ltb_spec d 0), (Z.ltb_spec d 20), (Z.ltb_spec 25 d),
             (Z.leb_spec 0 d);
    simpl in Dd; try discriminate Dd; try lia; reflexivity.
Qed.

(** ** The first display row *)

Lemma Z_below_forallb (P : Z -> bool) (n : nat) :
  forallb P (List.map Z.of_nat (seq 0 n)) = true ->
  forall z, 0 <= z < Z.of_nat n -> P z = true.
Proof.
  intros H z Hz. rewrite forallb_forall in H. apply H.
  rewrite <- (Z2Nat.id z) by lia. apply in_map, in_seq. lia.
Qed.

Lemma dec_digit_width (c : Z) : 0 <= c <= 9 -> List.length (dec c) = 1%nat.
Proof.
  intros H.
  apply Nat.eqb_eq.
  apply (Z_below_forallb (fun z => Nat.eqb (List.length (dec z)) 1) 10);
    [vm_compute; reflexivity | lia].
Qed.

Lemma dec_field_width (v : Z) :
  0 <= v <= 999 -> List.length (pad_left 3 (dec v)) = 3%nat.
Proof.
  intros H.
  apply Nat.eqb_eq.
  apply (Z_below_forallb (fun z => Nat.eqb (List.length (pad_left 3 (dec z))) 3) 1000);
    [vm_compute; reflexivity | lia].
Qed.

(** With both levels in 0..9 and a distance of at most 999 cm, the status
    text has 15 characters, so [snprintf] cuts nothing off, and the first row
    is the text followed by one space; a missing echo is shown as distance 0. *)
Theorem lcd_first_row_shows_all (s : State) :
  0 <= commandedLevel s <= 9 ->
  0 <= effectiveLevel s <= 9 ->
  distanceCm s <= 999 ->
  let text :=
    chars "L:" ++ dec (commandedLevel s) ++ chars " E:" ++ dec (effectiveLevel s)
    ++ chars " D:" ++ pad_left 3 (dec (if distanceCm s <? 0 then 0 else distanceCm s))
    ++ chars "cm" in
  lcd_line1 s = text
  /\ List.length text = 15%nat
  /\ lcdRow0 (updateLcd s) = text ++ [" "%char].
Proof.
  intros Hc He Hd text.
  assert (Hv : 0 <= (if distanceCm s <? 0 then 0 else distanceCm s) <= 999).
  { destruct (Z.ltb_spec (distanceCm s) 0); lia. }
  assert (Hlen : List.length text = 15%nat).
  { unfold text. rewrite !length_app.
    rewrite (dec_digit_width _ Hc), (dec_digit_width _ He), (dec_field_width _ Hv).
    reflexivity. }
  assert (Hline : lcd_line1 s = text).
  { unfold lcd_line1, snprintf. fold text. apply firstn_all2. rewrite Hlen. simpl. lia. }
  split; [exact Hline|]. split; [exact Hlen|].
  change (lcdRow0 (updateLcd s)) with (lcd_row0 s).
  unfold lcd_row0, lcd_print_padded. rewrite Hline, Hlen. reflexivity.
Qed.

Lemma lcd_first_row_shows_all_witness :
  string_of_list_ascii (lcdRow0 (updateLcd s_level5_blocked)) = "L:5 E:0 D:  2cm "%string
  /\ string_of_list_ascii (lcdRow0 (updateLcd s_level5_clear)) = "L:5 E:5 D:  0cm "%string.
Proof.
  split.
  - destruct (lcd_first_row_shows_all s_level5_blocked) as (_ & _ & ->).
    + vm_compute. split; discriminate.
    + vm_compute. split; discriminate.
    + vm_compute. discriminate.
    + vm_compute. reflexivity.
  - destruct (lcd_first_row_shows_all s_level5_clear) as (_ & _ & ->).
    + vm_compute. split; discriminate.
    + vm_compute. split; discriminate.
    + vm_compute. discriminate.
    + vm_compute. reflexivity.
Defined.

(** ** Commanded level and effective level *)

(** Outside the hysteresis bands a higher command never gives a lower level:
    for commanded levels [L1 <= L2] in 0..9 and a sample (valid or not) that
    is outside the band of both, the effective level under [L1] is at most the
    one under [L2]. *)
Theorem higher_command_never_slower (s1 s2 : State) (d : Z) :
  0 <= commandedLevel s1 <= commandedLevel s2 ->
  commandedLevel s2 <= 9 ->
  in_band d s1 = false -> in_band d s2 = false ->
  effectiveLevel (sample_tick d s1) <= effectiveLevel (sample_tick d s2).
Proof.
  intros H1 H2 B1 B2.
  assert (Hout : forall s, in_band d s = false ->
            d < computeSafeCm (commandedLevel s)
            \/ computeSafeCm (commandedLevel s) + HYSTERESIS_CM < d).
  { intros s B. unfold in_band in B. apply andb_false_iff in B.
    destruct B as [B | B]; apply Z.leb_gt in B; auto. }
  assert (Hfull : forall s, 0 <= commandedLevel s <= 9 ->
            d < 0 \/ computeSafeCm (commandedLevel s) + HYSTERESIS_CM < d ->
            effectiveLevel (sample_tick d s) = commandedLevel s).
  { intros s HL [H | H].
    - destruct (sample_tick_no_echo d s H) as (-> & _). apply constrain_id, HL.
    - destruct (sample_tick_clear d s H) as (-> & _). apply constrain_id, HL. }
  assert (HL1 : 0 <= commandedLevel s1 <= 9) by lia.
  assert (HL2 : 0 <= commandedLevel s2 <= 9) by lia.
  pose proof (computeSafeCm_mono _ _ (proj2 H1)) as Hmono.
  destruct (Z.lt_ge_cases d 0) as [Hneg | Hnn].
  { rewrite (Hfull s1 HL1), (Hfull s2 HL2) by auto. lia. }
  assert (Hsafe : forall L, 0 <= L -> computeSafeCm L - MIN_CM = 8 + 5 * L).
  { intros L HL. unfold computeSafeCm, BASE_SAFE_CM, CM_PER_LEVEL, MIN_CM.
    destruct (Z.leb_spec L 0); lia. }
  pose proof (Hsafe _ (proj1 HL1)) as E1. pose proof (Hsafe _ (proj1 HL2)) as E2.
  unfold HYSTERESIS_CM in *.
  set (a := commandedLevel s1) in *. set (b := commandedLevel s2) in *.
  set (x := Z.max d MIN_CM - MIN_CM).
  assert (Hx : 0 <= x) by (unfold x; lia).
  destruct (Hout s1 B1) as [L1 | L1], (Hout s2 B2) as [L2 | L2]; fold a b in L1, L2.
  - rewrite !sample_tick_reduce_value by (fold a b; lia). fold a b x.
    rewrite E1, E2.
    set (q := a * x / (8 + 5 * a)).
    assert (Hq : (8 + 5 * a) * q <= a * x) by (apply Z.mul_div_le; lia).
    assert (Hq0 : 0 <= q) by (apply Z.div_pos; [apply Z.mul_nonneg_nonneg|]; lia).
    apply Z.div_le_lower_bound; [lia|].
    apply (Z.mul_le_mono_pos_l _ _ (8 + 5 * a)); [lia|].
    apply Z.le_trans with ((8 + 5 * b) * (a * x)).
    + replace ((8 + 5 * a) * ((8 + 5 * b) * q))
        with ((8 + 5 * b) * ((8 + 5 * a) * q)) by ring.
      apply Z.mul_le_mono_nonneg_l; [lia | exact Hq].
    + replace ((8 + 5 * b) * (a * x)) with (((8 + 5 * b) * a) * x) by ring.
      replace ((8 + 5 * a) * (b * x)) with (((8 + 5 * a) * b) * x) by ring.
      apply Z.mul_le_mono_nonneg_r; [exact Hx | lia].
  - rewrite (Hfull s2 HL2) by auto.
    rewrite sample_tick_reduce_value by (fold a; lia). fold a b x.
    rewrite E1. apply Z.le_trans with a; [|lia].
    apply Z.div_le_upper_bound; [lia|].
    rewrite Z.mul_comm. apply Z.mul_le_mono_nonneg_r; [lia|].
    unfold x, MIN_CM in *. lia.
  - rewrite (Hfull s1 HL1) by auto.
    rewrite sample_tick_reduce_value by (fold b; lia). fold a b x.
    rewrite E2. apply Z.div_le_lower_bound; [lia|].
    assert (Hxl : 12 + 5 * a <= x) by (unfold x, MIN_CM in *; lia).
    apply Z.le_trans with (b * (12 + 5 * a)); [lia|].
    apply Z.mul_le_mono_nonneg_l; [lia | exact Hxl].
  - rewrite (Hfull s1 HL1), (Hfull s2 HL2) by auto. lia.
Qed.

Lemma higher_command_never_slower_witness :
  effectiveLevel (sample_tick 30 s_level5_clear)
  <= effectiveLevel (sample_tick 30 (run [press 0x4A 60 2] init)).
Proof.
  apply (higher_command_never_slower s_level5_clear (run [press 0x4A 60 2] init) 30).
  - vm_compute. split; discriminate.
  - vm_compute. discriminate.
  - vm_compute. reflexivity.
  - vm_compute. reflexivity.
Defined.

(** ** Display message and alert *)

(** After a tick, the second display row carries the obstacle message exactly
    when the sample is valid and below [LED_ON_CM], and then the alert is on;
    the alert can be on under the normal message (samples up to
    [LED_OFF_CM] keep it on). *)
Theorem obstacle_message_implies_alert (d : Z) (s : State) :
  let t := sample_tick d s in
  (lcdRow1 (updateLcd t) = MSG_OBSTACLE <-> 0 <= d < LED_ON_CM)
  /\ (lcdRow1 (updateLcd t) = MSG_OBSTACLE -> ledState t = true)
  /\ (ledState s = true -> LED_ON_CM <= d <= LED_OFF_CM ->
      lcdRow1 (updateLcd t) = MSG_NORMAL /\ ledState t = true).
Proof.
  intros t.
  destruct (sample_tick_frame d s) as (Fd & _). fold t in Fd.
  destruct (led_step d s) as (Ls & _). fold t in Ls.
  change (lcdRow1 (updateLcd t)) with (lcd_row1 t).
  unfold lcd_row1. rewrite Fd, Ls, Z.geb_leb. unfold LED_ON_CM, LED_OFF_CM.
  destruct (Z.leb_spec 0 d), (Z.ltb_spec d 20), (Z.ltb_spec d 0), (Z.ltb_spec 25 d);
    try lia; simpl; repeat split; intros; try lia; try reflexivity;
    try discriminate; try assumption.
Qed.

Lemma obstacle_message_implies_alert_witness :
  lcdRow1 (updateLcd (sample_tick 12 s_level5_clear)) = MSG_OBSTACLE
  /\ ledState (sample_tick 12 s_level5_clear) = true
  /\ lcdRow1 (updateLcd (sample_tick 22 (sample_tick 12 s_level5_clear))) = MSG_NORMAL
  /\ ledState (sample_tick 22 (sample_tick 12 s_level5_clear)) = true.
Proof.
  destruct (obstacle_message_implies_alert 12 s_level5_clear) as (Hiff & Hon & _).
  assert (Hmsg : lcdRow1 (updateLcd (sample_tick 12 s_level5_clear)) = MSG_OBSTACLE).
  { apply Hiff. unfold LED_ON_CM. lia. }
  split; [exact Hmsg|]. split; [apply Hon, Hmsg|].
  destruct (obstacle_message_implies_alert 22 (sample_tick 12 s_level5_clear))
    as (_ & _ & Hstay).
  apply Hstay.
  - vm_compute. reflexivity.
  - unfold LED_ON_CM, LED_OFF_CM. lia.
Defined.

(** ** A command while the sample is in the band *)

(** C1: the effective level should never exceed the commanded level, and
    equal it when no reduction is active, also when a command arrives while
    the sample is in the hysteresis band.  The sketch breaks this.  Level 5 is
    commanded with no echo, so the motor runs at level 5; then 0 (stop) is
    commanded while the obstacle is at 12 cm, in the band 10..13 of level 0:
    the tick assigns nothing, the effective level stays 5 above the commanded
    level 0 with the flag clear, the stepper keeps the speed 10 and is stepped
    in that pass and in the next one.  Every deciding branch would have
    stopped it: the same command with a sample of 14 cm, of 9 cm or with no
    echo gives level 0, and without the command the sample of 12 cm gives
    level 1. *)
Theorem stop_command_not_obeyed_in_band :
  let s1 := run [mkInput (Some (mkIR false 0x1C)) 900 0] init in
  let s2 := loop (press 0x16 960 12) s1 in
  let s3 := loop (idle 1020 12) s2 in
  (commandedLevel s1 = 5 /\ effectiveLevel s1 = 5 /\ reducing s1 = false)
  /\ (commandedLevel s2 = 0 /\ distanceCm s2 = 12 /\ in_band 12 s2 = true
      /\ effectiveLevel s2 = 5 /\ reducing s2 = false /\ stepperRpm s2 = 10
      /\ stepperSteps s2 = stepperSteps s1 + 1)
  /\ (commandedLevel s3 = 0 /\ effectiveLevel s3 = 5
      /\ stepperSteps s3 = stepperSteps s2 + 1)
  /\ ~ effectiveLevel s2 <= commandedLevel s2
  /\ effectiveLevel s2 <> commandedLevel s2
  /\ (effectiveLevel (loop (press 0x16 960 14) s1) = 0
      /\ effectiveLevel (loop (press 0x16 960 9) s1) = 0
      /\ effectiveLevel (loop (mkInput (Some (mkIR false 0x16)) 960 0) s1) = 0)
  /\ effectiveLevel (loop (idle 960 12) s1) = 1.
Proof.
  vm_compute.
  repeat split; try reflexivity; try discriminate; intros H; apply H; reflexivity.
Qed.

(** ** Ignored frames *)

Lemma loop_serialLog (i : LoopInput) (s : State) :
  serialLog (loop i s) = serialLog (handle_ir (ir i) s).
Proof.
  unfold loop.
  set (s1 := handle_ir (ir i) s).
  set (s2 := if ping_due (now i) s1
             then sample_tick (readUltrasonicCm (echo i)) (set_lastPing (now i) s1)
             else s1).
  assert (E2 : serialLog s2 = serialLog s1).
  { unfold s2. destruct (ping_due (now i) s1); [|reflexivity].
    destruct (sample_tick_frame (readUltrasonicCm (echo i)) (set_lastPing (now i) s1))
      as (_ & _ & _ & _ & _ & _ & ->).
    reflexivity. }
  destruct (lcd_due (now i) s2); simpl;
    match goal with |- context [if ?c then _ else _] => destruct c end;
    simpl; exact E2.
Qed.

(** No frame, a repeat frame or a code that is not a digit code: the IR
    handling leaves the whole state as it is, so the pass is the pass without
    a frame (its tick, refresh and step run as usual), it keeps the commanded
    level and prints nothing on the serial port. *)
Theorem ignored_frame_changes_nothing (i : option IRData) (s : State) (t e : Z) :
  ignored i = true ->
  handle_ir i s = s
  /\ loop (mkInput i t e) s = loop (mkInput None t e) s
  /\ commandedLevel (loop (mkInput i t e) s) = commandedLevel s
  /\ serialLog (loop (mkInput i t e) s) = serialLog s.
Proof.
  intros H. pose proof (handle_ir_ignored i s H) as E.
  split; [exact E|]. split; [|split].
  - unfold loop. cbn [ir now echo]. rewrite E. reflexivity.
  - destruct (loop_levels (mkInput i t e) s) as (-> & _).
    cbn [ir now echo]. rewrite E.
    destruct (ping_due t s); [|reflexivity].
    rewrite sample_tick_commandedLevel. reflexivity.
  - rewrite loop_serialLog. cbn [ir]. rewrite E. reflexivity.
Qed.

Lemma ignored_frame_changes_nothing_witness :
  handle_ir (Some (mkIR true 0x4A)) s_level5_blocked = s_level5_blocked
  /\ loop (mkInput (Some (mkIR false 0x45)) 120 0) s_level5_blocked
     = loop (mkInput None 120 0) s_level5_blocked
  /\ commandedLevel (loop (mkInput (Some (mkIR false 0x45)) 120 0) s_level5_blocked)
     = commandedLevel s_level5_blocked
  /\ serialLog (loop (mkInput (Some (mkIR false 0x45)) 120 0) s_level5_blocked)
     = serialLog s_level5_blocked.
Proof.
  split.
  - destruct (ignored_frame_changes_nothing
                (Some (mkIR true 0x4A)) s_level5_blocked 0 0) as (Hir & _).
    + reflexivity.
    + exact Hir.
  - destruct (ignored_frame_changes_nothing
                (Some (mkIR false 0x45)) s_level5_blocked 120 0)
      as (_ & Hpass & Hlevel & Hlog).
    + vm_compute. reflexivity.
    + split; [exact Hpass|]. split; [exact Hlevel | exact Hlog].
Defined.
